(** * Recipe Ideas: the search pipeline of [src/App.jsx]

    A shallow embedding of the pure helpers ([extractIngredients],
    [estimateCookTime]), the autosuggest list, the [run] effect that
    fetches, intersects and filters recipes, and [toggleFavourite].

    Modelling conventions.
    - A JavaScript string is a [string]: a sequence of code units, here
      restricted to the Latin-1 range (one [ascii] per code unit), on
      which [toLowerCase] acts unit by unit.
    - A JSON object is a finite map from property names to values; the
      upstream service only sends strings and [null], so a value is
      [undefined], [null] or a string.
    - A [Set] is its list of elements in insertion order, without
      duplicates.
    - Numbers that the code handles are integers ([Z]). *)

From Stdlib Require Import ZArith Ascii String List Lia Bool Sorted.
From stdpp Require Import gmap strings list pretty sorting.

Local Open Scope string_scope.

(* ================================================================= *)
(** ** JavaScript values and the string methods the code calls *)

Module Js.

Definition chars (s : string) : list ascii := list_ascii_of_string s.
Definition text (l : list ascii) : string := string_of_list_ascii l.
Definition code (c : ascii) : nat := nat_of_ascii c.

(** White space removed by [String.prototype.trim]: TAB, LF, VT, FF, CR,
    SP and NBSP are the white-space and line-terminator code units below
    256. *)
Definition is_white (c : ascii) : bool :=
  let n := code c in
  (9 <=? n)%nat && (n <=? 13)%nat || (n =? 32)%nat || (n =? 160)%nat.

Fixpoint skip_white (l : list ascii) : list ascii :=
  match l with
  | [] => []
  | c :: r => if is_white c then skip_white r else l
  end.

Definition trim_chars (l : list ascii) : list ascii :=
  rev (skip_white (rev (skip_white l))).

Definition trim (s : string) : string := text (trim_chars (chars s)).

(** [toLowerCase]: A-Z and the upper-case letters of the Latin-1
    supplement (all of 0xC0-0xDE but the multiplication sign) move up by
    32; every other unit is kept. *)
Definition is_upper (c : ascii) : bool :=
  let n := code c in
  (65 <=? n)%nat && (n <=? 90)%nat
  || (192 <=? n)%nat && (n <=? 222)%nat && negb (n =? 215)%nat.

Definition lower_char (c : ascii) : ascii :=
  if is_upper c then ascii_of_nat (code c + 32) else c.

Definition toLowerCase (s : string) : string :=
  text (map lower_char (chars s)).

(** [s.includes(q)]: [q] occurs in [s] at some position. *)
Fixpoint starts_with (q s : list ascii) : bool :=
  match q, s with
  | [], _ => true
  | _ :: _, [] => false
  | a :: q', b :: s' => Ascii.eqb a b && starts_with q' s'
  end.

Fixpoint includes_chars (s q : list ascii) : bool :=
  starts_with q s
  || match s with
     | [] => false
     | _ :: s' => includes_chars s' q
     end.

Definition includes (s q : string) : bool :=
  includes_chars (chars s) (chars q).

(** [s.split(re)] for a regular expression that matches exactly one code
    unit of a given class: the pieces between the matches, an empty
    string giving the single piece [""]. *)
Fixpoint split_chars (sep : ascii -> bool) (l : list ascii)
  : list (list ascii) :=
  match l with
  | [] => [[]]
  | c :: r =>
      if sep c then [] :: split_chars sep r
      else match split_chars sep r with
           | seg :: segs => (c :: seg) :: segs
           | [] => [[c]]
           end
  end.

Definition split (sep : ascii -> bool) (s : string) : list string :=
  map text (split_chars sep (chars s)).

(** [re.test(s)] for a case-insensitive alternation of literal words,
    [/w1|w2|.../i]: some word occurs in [s] up to case. *)
Definition test_i (words : list string) (s : string) : bool :=
  existsb (fun w => includes (toLowerCase s) (toLowerCase w)) words.

(** Values found in the service's JSON records. *)
Inductive JsVal : Type :=
| JUndefined
| JNull
| JStr (s : string).

#[global] Instance JsVal_eq_dec : EqDecision JsVal.
Proof. solve_decision. Defined.

(** [Boolean(v)] *)
Definition truthy (v : JsVal) : bool :=
  match v with
  | JStr s => negb (String.eqb s "")
  | _ => false
  end.

(** [v || ""] *)
Definition or_empty (v : JsVal) : string :=
  match v with
  | JStr s => s
  | _ => ""
  end.

(** [String(v)], as a template literal or [RegExp.test] coerces it. *)
Definition to_text (v : JsVal) : string :=
  match v with
  | JUndefined => "undefined"
  | JNull => "null"
  | JStr s => s
  end.

Abbreviation JsObj := (gmap string JsVal).

(** [o.k] *)
Definition get (o : JsObj) (k : string) : JsVal :=
  default JUndefined (o !! k).

(** [o?.k] on a possibly missing object *)
Definition get_opt (o : option JsObj) (k : string) : JsVal :=
  match o with
  | Some m => get m k
  | None => JUndefined
  end.

(** [Math.round] on an integral number: [floor (x + 1/2)]. *)
Definition Math_round (z : Z) : Z := ((2 * z + 1) / 2)%Z.

End Js.

Import Js.

(* ================================================================= *)
(** ** Helpers of [App.jsx] *)

Record IngredientPair : Type := mkPair {
  ingredient : string;
  measure : string
}.

(** The property name [`strIngredient${i}`] (or [`strMeasure${i}`]). *)
Definition slotKey (field : string) (i : nat) : string :=
  field +:+ pretty i.

(** The body of the [for] loop of [extractIngredients], from slot [i]
    for [todo] more slots, [pairs] being the array built so far. *)
Fixpoint extract_from (meal : JsObj) (i todo : nat)
  (pairs : list IngredientPair) : list IngredientPair :=
  match todo with
  | O => pairs
  | S todo' =>
      let ing := get meal (slotKey "strIngredient" i) in
      let measure := get meal (slotKey "strMeasure" i) in
      let pairs' :=
        match ing with
        | JStr s =>
            if negb (String.eqb s "") && negb (String.eqb (trim s) "")
            then (pairs ++ [mkPair (trim s) (trim (or_empty measure))])%list
            else pairs
        | _ => pairs
        end in
      extract_from meal (S i) todo' pairs'
  end.

Definition extractIngredients (meal : option JsObj) : list IngredientPair :=
  match meal with
  | None => []
  | Some m => extract_from m 1 20 []
  end.

(** The separator class of [/\n|\.|\r/]. *)
Definition is_step_sep (c : ascii) : bool :=
  let n := code c in
  (n =? 10)%nat || (n =? 46)%nat || (n =? 13)%nat.

(** [(s) => s.trim().length > 6] *)
Definition long_step (s : string) : bool :=
  (6 <? String.length (trim s))%nat.

Definition estimateCookTime (meal : option JsObj) : Z :=
  let ings := extractIngredients meal in
  let base := 10%Z in
  let byIngs := (Z.of_nat (List.length ings) * 2)%Z in
  let bySteps :=
    (Z.of_nat
       (List.length
          (List.filter long_step
             (split is_step_sep (or_empty (get_opt meal "strInstructions")))))
     * 2)%Z in
  let total := Z.min 120 (Math_round (base + byIngs + bySteps)) in
  total.

(* ================================================================= *)
(** ** The upstream service *)

(** A settled promise. *)
Inductive Promise (A : Type) : Type :=
| Rejected
| Fulfilled (a : A).
Arguments Rejected {A}.
Arguments Fulfilled {A} a.

(** [Promise.all]: rejected as soon as one member is. *)
Fixpoint Promise_all {A} (ps : list (Promise A)) : Promise (list A) :=
  match ps with
  | [] => Fulfilled []
  | Rejected :: _ => Rejected
  | Fulfilled a :: r =>
      match Promise_all r with
      | Fulfilled l => Fulfilled (a :: l)
      | Rejected => Rejected
      end
  end.

(** [p.then(f)], and the result of an [async] function whose only
    [await] is on [p]. *)
Definition Promise_then {A B} (p : Promise A) (f : A -> B) : Promise B :=
  match p with
  | Fulfilled a => Fulfilled (f a)
  | Rejected => Rejected
  end.

(** What the code reads of a response body [d]: the value of [d?.meals],
    [None] when it is [null] or missing, else an array whose entries are
    records or [null]. *)
Definition Payload : Type := option (list (option JsObj)).

(** How the service answers each request during one run. *)
Record Upstream : Type := mkUpstream {
  filter_response : string -> Promise Payload;
  lookup_response : JsVal -> Promise Payload
}.

(* ================================================================= *)
(** ** Ingredient catalogue and autosuggest *)

Section Catalog.

Variable localeCompare : string -> string -> Z.

(** [Array.prototype.sort] with the comparator
    [(a, b) => a.localeCompare(b)]: a stable sort. *)
Fixpoint sort_insert (x : string) (l : list string) : list string :=
  match l with
  | [] => [x]
  | y :: r =>
      if (localeCompare x y <=? 0)%Z then x :: y :: r
      else y :: sort_insert x r
  end.

Fixpoint Array_sort (l : list string) : list string :=
  match l with
  | [] => []
  | x :: r => sort_insert x (Array_sort r)
  end.

(** The effect that loads the ingredient list: the value given to
    [setAllIngredients]. *)
Definition loadIngredients (resp : Promise Payload) : list string :=
  match resp with
  | Fulfilled d =>
      let names :=
        Array_sort
          (map to_text
             (List.filter truthy
                (map (fun x => get_opt x "strIngredient") (default [] d)))) in
      names
  | Rejected => []
  end.

End Catalog.

(** [arr.includes(x)] on an array of strings *)
Definition Array_includes (arr : list string) (x : string) : bool :=
  existsb (String.eqb x) arr.

Definition suggestions (debouncedQuery : string)
  (allIngredients selectedIngredients : list string) : list string :=
  if String.eqb debouncedQuery "" then []
  else
    let q := toLowerCase debouncedQuery in
    take 10
      (List.filter
         (fun n => includes (toLowerCase n) q
                   && negb (Array_includes selectedIngredients n))
         allIngredients).

(* ================================================================= *)
(** ** Filters *)

Record Cuisine : Type := mkCuisine {
  label : string;
  value : string
}.

(** The four meal-time buttons; the state [mealTimes] only ever holds
    their labels. *)
Inductive MealTime : Type := Breakfast | Lunch | Snack | Dinner.

Definition mealTimeLabel (t : MealTime) : string :=
  match t with
  | Breakfast => "Breakfast"
  | Lunch => "Lunch"
  | Snack => "Snack"
  | Dinner => "Dinner"
  end.

Record Filters : Type := mkFilters {
  cuisines : list Cuisine;
  cookTime : Z;
  mealTimes : list MealTime;
  diet : list string
}.

(** [arr.join(" ")] *)
Fixpoint join_space (arr : list string) : string :=
  match arr with
  | [] => ""
  | [s] => s
  | s :: r => s +:+ " " +:+ join_space r
  end.

Definition meat_words : list string :=
  ["chicken"; "beef"; "pork"; "mutton"; "lamb"; "bacon"; "fish"; "shrimp";
   "prawn"; "crab"; "clam"; "oyster"; "tuna"; "salmon"].

Definition sea_words : list string :=
  ["fish"; "shrimp"; "prawn"; "crab"; "clam"; "oyster"; "tuna"; "salmon"].

Definition drink_words : list string :=
  ["drink"; "beverage"; "shake"; "smoothie"; "cocktail"; "juice"].

(** [extractIngredients(meal).map((x) => x.ingredient.toLowerCase())] *)
Definition lowerIngredients (meal : JsObj) : list string :=
  map (fun x => toLowerCase (ingredient x)) (extractIngredients (Some meal)).

Definition lowerCategory (meal : JsObj) : string :=
  toLowerCase (or_empty (get meal "strCategory")).

Definition isVeg (meal : JsObj) : bool :=
  negb (test_i meat_words (join_space (lowerIngredients meal))).

Definition isSea (meal : JsObj) : bool :=
  test_i sea_words (join_space (lowerIngredients meal))
  || includes (lowerCategory meal) "seafood".

Definition isDrink (meal : JsObj) : bool :=
  test_i drink_words
    (lowerCategory meal +:+ " " +:+ to_text (get meal "strMeal")).

(** The callback of [diet.some(...)]. *)
Definition dietLabelOk (meal : JsObj) (d : string) : bool :=
  (String.eqb d "Veg" && isVeg meal)
  || (String.eqb d "Non-Veg" && negb (isVeg meal) && negb (isDrink meal))
  || (String.eqb d "Sea-food" && isSea meal)
  || (String.eqb d "Drinks" && isDrink meal).

(** The callback of [clean.filter(...)]. *)
Definition keepMeal (f : Filters) (meal : JsObj) : bool :=
  let minutes := estimateCookTime (Some meal) in
  let area := toLowerCase (or_empty (get meal "strArea")) in
  let category := lowerCategory meal in
  let cuisineOk :=
    (List.length (cuisines f) =? 0)%nat
    || existsb
         (fun c => includes area (toLowerCase (value c))
                   || includes category (toLowerCase (value c)))
         (cuisines f) in
  let timeOk := (minutes <=? cookTime f)%Z || (70 <=? cookTime f)%Z in
  let dietOk :=
    (List.length (diet f) =? 0)%nat || existsb (dietLabelOk meal) (diet f) in
  let mealTimeOk :=
    (List.length (mealTimes f) =? 0)%nat
    || existsb
         (fun t => test_i [mealTimeLabel t] (to_text (get meal "strMeal"))
                   || test_i [mealTimeLabel t] (or_empty (get meal "strTags")))
         (mealTimes f) in
  cuisineOk && timeOk && dietOk && mealTimeOk.

(* ================================================================= *)
(** ** The component state and the effects of a run *)

Inductive Request : Type :=
| FilterByIngredient (ing : string)
| LookupById (id : JsVal).

(** What a run does to the outside, in order. *)
Inductive Effect : Type :=
| SetError (msg : string)
| SetMeals (l : list JsObj)
| SetSelectedMeal (m : option JsObj)
| SetLoading (b : bool)
| Fetch (r : Request)
| ConsoleError.

Record Session : Type := mkSession {
  error : string;
  meals : list JsObj;
  selectedMeal : option JsObj;
  loading : bool;
  trace : list Effect
}.

Inductive Outcome (A : Type) : Type :=
| Returned (a : A)
| Thrown.
Arguments Returned {A} a.
Arguments Thrown {A}.

(** A computation that changes the session and returns or throws. *)
Definition Run (A : Type) : Type := Session -> Outcome A * Session.

#[global] Instance Run_ret : MRet Run := fun A a s => (Returned a, s).

#[global] Instance Run_bind : MBind Run := fun A B k c s =>
  match c s with
  | (Returned a, s') => k a s'
  | (Thrown, s') => (Thrown, s')
  end.

Definition throw {A} : Run A := fun s => (Thrown, s).

(** [try { body } catch (e) { handler } finally { final }] *)
Definition try_catch_finally {A} (body handler : Run A) (final : Run unit)
  : Run A := fun s =>
  let '(r, s1) :=
    match body s with
    | (Returned a, s1) => (Returned a, s1)
    | (Thrown, s1) => handler s1
    end in
  match final s1 with
  | (Returned _, s2) => (r, s2)
  | (Thrown, s2) => (Thrown, s2)
  end.

Definition emit (e : Effect) (s : Session) : Session :=
  mkSession (error s) (meals s) (selectedMeal s) (loading s)
    (trace s ++ [e])%list.

Definition emit_all (es : list Effect) (s : Session) : Session :=
  mkSession (error s) (meals s) (selectedMeal s) (loading s)
    (trace s ++ es)%list.

Definition setError (msg : string) : Run unit := fun s =>
  let s := emit (SetError msg) s in
  (Returned tt, mkSession msg (meals s) (selectedMeal s) (loading s) (trace s)).

Definition setMeals (l : list JsObj) : Run unit := fun s =>
  let s := emit (SetMeals l) s in
  (Returned tt, mkSession (error s) l (selectedMeal s) (loading s) (trace s)).

Definition setSelectedMeal (m : option JsObj) : Run unit := fun s =>
  let s := emit (SetSelectedMeal m) s in
  (Returned tt, mkSession (error s) (meals s) m (loading s) (trace s)).

Definition setLoading (b : bool) : Run unit := fun s =>
  let s := emit (SetLoading b) s in
  (Returned tt, mkSession (error s) (meals s) (selectedMeal s) b (trace s)).

Definition consoleError : Run unit := fun s =>
  (Returned tt, emit ConsoleError s).

(** [API.filterByIngredient(ing)]: the request goes out, a promise comes
    back. *)
Definition filterByIngredient (api : Upstream) (ing : string)
  : Run (Promise Payload) := fun s =>
  (Returned (filter_response api ing), emit (Fetch (FilterByIngredient ing)) s).

Definition lookupById (api : Upstream) (id : JsVal)
  : Run (Promise Payload) := fun s =>
  (Returned (lookup_response api id), emit (Fetch (LookupById id)) s).

(** [await p] *)
Definition await {A} (p : Promise A) : Run A :=
  match p with
  | Fulfilled a => mret a
  | Rejected => throw
  end.

(** A pure step that may raise a [TypeError]. *)
Definition checked {A} (o : option A) : Run A :=
  match o with
  | Some a => mret a
  | None => throw
  end.

(* ================================================================= *)
(** ** The search pipeline *)

(** [s.has(x)] *)
Definition Set_has (s : list JsVal) (x : JsVal) : bool :=
  bool_decide (x ∈ s).

(** [new Set(iterable)]: each value once, at its first position. *)
Definition Set_new (l : list JsVal) : list JsVal :=
  fold_left (fun acc x => if Set_has acc x then acc else acc ++ [x])%list l [].

(** [m.idMeal], a [TypeError] when the entry [m] is [null]. *)
Definition entry_id (m : option JsObj) : option JsVal :=
  match m with
  | Some o => Some (get o "idMeal")
  | None => None
  end.

(** [new Set((d?.meals || []).map((m) => m.idMeal))] *)
Definition mealSet (d : Payload) : option (list JsVal) :=
  Set_new <$> mapM entry_id (default [] d).

(** One turn of the [for (const s of mealSets)] loop. *)
Definition intersect_step (intersection : option (list JsVal))
  (s : list JsVal) : option (list JsVal) :=
  match intersection with
  | None => Some (Set_new s)
  | Some i => Some (Set_new (List.filter (fun x => Set_has s x) i))
  end.

Definition intersect_all (mealSets : list (list JsVal))
  : option (list JsVal) :=
  fold_left intersect_step mealSets None.

(** [d?.meals?.[0]] *)
Definition first_meal (d : Payload) : option JsObj :=
  match d with
  | Some (m :: _) => m
  | _ => None
  end.

Definition generic_error : string :=
  "Could not load recipes. Please try again.".

(** The body of the [try] block of [run]. *)
Definition run_try (api : Upstream) (f : Filters)
  (selectedIngredients : list string) : Run unit :=
  pending ← mapM (filterByIngredient api) selectedIngredients;
  lists ← await (Promise_all pending);
  mealSets ← checked (mapM mealSet lists);
  let intersection := intersect_all mealSets in
  let ids := take 20 (default [] intersection) in
  lookups ←
    mapM (fun id =>
            p ← lookupById api id;
            mret (Promise_then p first_meal))
         ids;
  details ← await (Promise_all lookups);
  let clean := omap id details in
  let filtered := List.filter (keepMeal f) clean in
  setMeals filtered ;;
  setSelectedMeal (head filtered).

Definition run (api : Upstream) (f : Filters)
  (selectedIngredients : list string) : Run unit :=
  setError "" ;;
  setMeals [] ;;
  setSelectedMeal None ;;
  if (List.length selectedIngredients =? 0)%nat then mret tt
  else
    setLoading true ;;
    try_catch_finally
      (run_try api f selectedIngredients)
      (consoleError ;; setError generic_error)
      (setLoading false).

(** The session a computation leaves behind. *)
Definition final {A} (c : Run A) (s : Session) : Session := snd (c s).

Definition is_fetch (e : Effect) : bool :=
  match e with
  | Fetch _ => true
  | _ => false
  end.

Definition is_lookup (e : Effect) : bool :=
  match e with
  | Fetch (LookupById _) => true
  | _ => false
  end.

(** A [setError] call that shows a message. *)
Definition is_error_report (e : Effect) : bool :=
  match e with
  | SetError msg => negb (String.eqb msg "")
  | _ => false
  end.

(* ================================================================= *)
(** ** Favourites *)

Record Favourite : Type := mkFavourite {
  idMeal : JsVal;
  strMeal : JsVal
}.

Definition same_id (meal : JsObj) (x : Favourite) : bool :=
  bool_decide (idMeal x = get meal "idMeal").

Definition toggleFavourite (meal : JsObj) (f : list Favourite)
  : list Favourite :=
  let exists_ := List.find (same_id meal) f in
  match exists_ with
  | Some _ => List.filter (fun x => negb (same_id meal x)) f
  | None => (f ++ [mkFavourite (get meal "idMeal") (get meal "strMeal")])%list
  end.

(* ================================================================= *)
(** ** Notions used to state the properties *)

(** Slot [i] of a record is populated: its name is a string whose trimmed
    form is not empty. *)
Definition populated (meal : JsObj) (i : nat) : bool :=
  match get meal (slotKey "strIngredient" i) with
  | JStr s => negb (String.eqb (trim s) "")
  | _ => false
  end.

(** Number of populated slots among slots 1 to 20. *)
Definition ingredientCount (meal : option JsObj) : nat :=
  match meal with
  | Some m => List.length (List.filter (populated m) (seq 1 20))
  | None => 0
  end.

(** The instruction text of a record, empty when there is none. *)
Definition instructions (meal : option JsObj) : string :=
  or_empty (get_opt meal "strInstructions").

(** Number of pieces of a text, cut at line feeds, full stops and
    carriage returns, whose trimmed length exceeds 6. *)
Definition qualifyingSegments (t : string) : nat :=
  List.length (List.filter long_step (split is_step_sep t)).

(** [q] occurs in [n] up to the case of letters. *)
Definition ci_substring (q n : string) : Prop :=
  exists pre mid post,
    n = pre +:+ mid +:+ post /\ toLowerCase mid = toLowerCase q.

(** The candidate-id set of one ingredient: defined when its request is
    answered and the answer can be read. *)
Definition candidateSet (api : Upstream) (ing : string)
  : option (list JsVal) :=
  match filter_response api ing with
  | Fulfilled d => mealSet d
  | Rejected => None
  end.

Definition candidateSets (api : Upstream) (ings : list string)
  : option (list (list JsVal)) :=
  mapM (candidateSet api) ings.

(** The identifiers that are looked up: the first 20 of the
    intersection. *)
Definition lookupIds (api : Upstream) (ings : list string)
  : option (list JsVal) :=
  (fun sets => take 20 (default [] (intersect_all sets)))
    <$> candidateSets api ings.

(** The record, if any, that the lookup of [id] yields. *)
Definition lookup_record (api : Upstream) (id : JsVal)
  : Promise (option JsObj) :=
  Promise_then (lookup_response api id) first_meal.

(** The record found for [id]: none when the answer holds no record (or
    when there is no answer). *)
Definition found_record (api : Upstream) (id : JsVal) : option JsObj :=
  match lookup_response api id with
  | Fulfilled d => first_meal d
  | Rejected => None
  end.

(** The records that reach the filtering step ([clean]). *)
Definition fetchedDetails (api : Upstream) (ings : list string)
  : option (list JsObj) :=
  ids ← lookupIds api ings;
  match Promise_all (map (lookup_record api) ids) with
  | Fulfilled details => Some (omap id details)
  | Rejected => None
  end.

(** The requests of a run, in the order they are issued. *)
Definition fetchTrace (api : Upstream) (ings : list string) : list Effect :=
  (map (fun ing => Fetch (FilterByIngredient ing)) ings
   ++ map (fun id => Fetch (LookupById id)) (default [] (lookupIds api ings)))%list.

(** The session after a run on a non-empty ingredient list. *)
Definition run_result (api : Upstream) (f : Filters) (ings : list string)
  (s : Session) : Session :=
  let pre :=
    ([SetError ""; SetMeals []; SetSelectedMeal None; SetLoading true]
     ++ fetchTrace api ings)%list in
  match fetchedDetails api ings with
  | Some clean =>
      let filtered := List.filter (keepMeal f) clean in
      mkSession "" filtered (head filtered) false
        (trace s ++ pre
         ++ [SetMeals filtered; SetSelectedMeal (head filtered);
             SetLoading false])%list
  | None =>
      mkSession generic_error [] None false
        (trace s ++ pre
         ++ [ConsoleError; SetError generic_error; SetLoading false])%list
  end.

(** The service answers a lookup with the record of the identifier asked
    for. *)
Definition lookup_faithful (api : Upstream) : Prop :=
  forall id d m,
    lookup_response api id = Fulfilled d ->
    first_meal d = Some m ->
    get m "idMeal" = id.

(** The pair stored for a recipe. *)
Definition favouriteOf (meal : JsObj) : Favourite :=
  mkFavourite (get meal "idMeal") (get meal "strMeal").

(** The comparator's results order the names: any two are comparable and
    the order is transitive. *)
Definition consistent_comparator (cmp : string -> string -> Z) : Prop :=
  (forall a b, (cmp a b <= 0)%Z \/ (cmp b a <= 0)%Z)
  /\ (forall a b c, (cmp a b <= 0)%Z -> (cmp b c <= 0)%Z -> (cmp a c <= 0)%Z).

Definition cmp_le (cmp : string -> string -> Z) (a b : string) : Prop :=
  (cmp a b <= 0)%Z.

(** The reading of the detail step under which a rejected lookup is
    survived: the run ends without error, with the records found for the
    other identifiers. *)
Definition lookup_failure_tolerated (api : Upstream) (f : Filters)
  (ings : list string) (s : Session) : Prop :=
  forall ids, lookupIds api ings = Some ids ->
    error (final (run api f ings) s) = ""
    /\ meals (final (run api f ings) s)
       = List.filter (keepMeal f) (omap (found_record api) ids).

(* ================================================================= *)
(** ** Sample data *)

Definition teriyaki : JsObj :=
  {[ "idMeal" := JStr "52772";
     "strMeal" := JStr "Teriyaki Chicken Casserole";
     "strCategory" := JStr "Chicken";
     "strArea" := JStr "Japanese";
     "strInstructions" :=
       JStr "Preheat oven to 350 degrees. Combine soy sauce and sugar. Bake.";
     "strIngredient1" := JStr "soy sauce";
     "strMeasure1" := JStr "3/4 cup";
     "strIngredient2" := JStr "chicken breasts";
     "strMeasure2" := JNull;
     "strIngredient3" := JStr "";
     "strTags" := JStr "Meat,Casserole" ]}.

Definition garlic_soup : JsObj :=
  {[ "idMeal" := JStr "52773";
     "strMeal" := JStr "Garlic Soup";
     "strCategory" := JStr "Starter";
     "strInstructions" := JStr "Simmer the garlic";
     "strIngredient1" := JStr "garlic" ]}.

Definition summary (id : string) : option JsObj :=
  Some {[ "idMeal" := JStr id ]}.

(** A service that knows two ingredients and three recipes, one of which
    has no record; [broken] makes the lookup of that identifier fail. *)
Definition sample_api (broken : option string) : Upstream :=
  mkUpstream
    (fun ing =>
       if String.eqb ing "chicken"
       then Fulfilled (Some [summary "52772"; summary "52773"; summary "52774"])
       else if String.eqb ing "garlic"
       then Fulfilled (Some [summary "52773"; summary "52775"; summary "52772";
                             summary "52773"])
       else Rejected)
    (fun id =>
       if bool_decide (Some id = JStr <$> broken) then Rejected
       else if bool_decide (id = JStr "52772") then Fulfilled (Some [Some teriyaki])
       else if bool_decide (id = JStr "52773") then Fulfilled (Some [Some garlic_soup])
       else Fulfilled None).

Definition no_filters : Filters := mkFilters [] 70 [] [].

Definition fresh_session : Session := mkSession "" [] None false [].

(** Code-unit order as a comparator. *)
Definition unit_compare (a b : string) : Z :=
  if String.leb a b then (if String.leb b a then 0 else -1)%Z else 1%Z.

(* ================================================================= *)
(** ** The other helpers and event handlers of [App.jsx] *)

(** The texts [formatMinutes] returns, in the order of its tests: the
    dash, "> 1 hr", "1 hr", "50-60 mins", "40-50 mins", "30-40 mins",
    "20-30 mins", "10-20 mins" and "< 10 mins". *)
Inductive MinutesLabel : Type :=
| LabelNone
| LabelOverHour
| LabelHour
| Label50
| Label40
| Label30
| Label20
| Label10
| LabelUnder10.

(** [formatMinutes(mins)]; [None] stands for a missing number or [NaN],
    which [!mins || isNaN(mins)] catches together with 0. *)
Definition formatMinutes (mins : option Z) : MinutesLabel :=
  match mins with
  | None => LabelNone
  | Some m =>
      if (m =? 0)%Z then LabelNone
      else if (60 <? m)%Z then LabelOverHour
      else if (m =? 60)%Z then LabelHour
      else if (50 <=? m)%Z then Label50
      else if (40 <=? m)%Z then Label40
      else if (30 <=? m)%Z then Label30
      else if (20 <=? m)%Z then Label20
      else if (10 <=? m)%Z then Label10
      else LabelUnder10
  end.

(** The search box: the text typed and the chosen ingredients. *)
Record SearchBox : Type := mkSearchBox {
  query : string;
  selectedIngredients : list string
}.

Definition addIngredient (name : string) (st : SearchBox) : SearchBox :=
  if String.eqb name "" then st
  else if Array_includes (selectedIngredients st) name then st
  else mkSearchBox "" (selectedIngredients st ++ [name])%list.

Definition removeIngredient (name : string) (s : list string) : list string :=
  List.filter (fun x => negb (String.eqb x name)) s.

(** The [onKeyDown] handler of the search input. *)
Definition onKeyDown (key : string) (st : SearchBox) : SearchBox :=
  if String.eqb key "Enter" && negb (String.eqb (trim (query st)) "")
  then addIngredient (trim (query st)) st
  else st.

(** The click handler of a meal-time or diet button: [active] is what
    [prev.includes(m)] gave when the button was drawn. *)
Definition toggleChoice {A} `{EqDecision A} (active : bool) (m : A)
  (prev : list A) : list A :=
  if active then List.filter (fun x => negb (bool_decide (x = m))) prev
  else (prev ++ [m])%list.

(** [arr.includes(m)] *)
Definition isActive {A} `{EqDecision A} (arr : list A) (m : A) : bool :=
  bool_decide (m ∈ arr).

#[global] Instance MealTime_eq_dec : EqDecision MealTime.
Proof. solve_decision. Defined.

Definition cuisineOptions : list Cuisine :=
  [mkCuisine "North Indian" "Indian";
   mkCuisine "South Indian" "Indian";
   mkCuisine "Chinese" "Chinese";
   mkCuisine "Americans" "American";
   mkCuisine "Russians" "Russian"].

(** [!!cuisines.find((c) => c.label === opt.label)] *)
Definition cuisineChecked (cuisines : list Cuisine) (opt : Cuisine) : bool :=
  match List.find (fun c => String.eqb (label c) (label opt)) cuisines with
  | Some _ => true
  | None => false
  end.

(** The [onChange] handler of a cuisine checkbox; [checked] is
    [e.target.checked]. *)
Definition onCuisineChange (checked : bool) (opt : Cuisine)
  (prev : list Cuisine) : list Cuisine :=
  if checked then (prev ++ [opt])%list
  else List.filter (fun c => negb (String.eqb (label c) (label opt))) prev.

(** [favourites.find((f) => f.idMeal === meal.idMeal)], as the star of a
    card tests it. *)
Definition isFavourite (favourites : list Favourite) (meal : JsObj) : bool :=
  match List.find (same_id meal) favourites with
  | Some _ => true
  | None => false
  end.

(** The three notices above the results grid. *)
Definition showLoading (s : Session) : bool := loading s.

Definition showError (s : Session) : bool :=
  negb (loading s) && negb (String.eqb (error s) "").

Definition showNoResults (s : Session) (chosen : list string) : bool :=
  negb (loading s) && String.eqb (error s) ""
  && (List.length (meals s) =? 0)%nat && (0 <? List.length chosen)%nat.

(** The identifiers common to all candidate sets. *)
Definition common_id (sets : list (list JsVal)) (x : JsVal) : Prop :=
  sets <> [] /\ Forall (fun s => x ∈ s) sets.

(** The names of the populated slots, trimmed, in slot order. *)
Definition populatedNames (meal : JsObj) : list string :=
  map (fun i => trim (or_empty (get meal (slotKey "strIngredient" i))))
    (List.filter (populated meal) (seq 1 20)).

(** A filter that lets every record through. *)
Definition pass_all : Filters := mkFilters [] 70 [] [].

(** A text that does not start with white space. *)
Definition clean_head (l : list ascii) : Prop :=
  match l with
  | [] => True
  | c :: _ => is_white c = false
  end.

(* ================================================================= *)
(** ** More sample data *)

Definition chicken_rice : JsObj :=
  {[ "strIngredient1" := JStr " Chicken thighs ";
     "strCategory" := JStr "Chicken" ]}.

Definition paella : JsObj :=
  {[ "strIngredient1" := JStr "Rice";
     "strCategory" := JStr "Seafood" ]}.

(** A service whose two ingredients share no recipe. *)
Definition split_api : Upstream :=
  mkUpstream
    (fun ing =>
       if String.eqb ing "chicken"
       then Fulfilled (Some [summary "A"; summary "B"])
       else Fulfilled (Some [summary "C"]))
    (fun _ => Fulfilled None).

(** A service that answers with a list holding a [null] entry. *)
Definition null_entry_api : Upstream :=
  mkUpstream
    (fun _ => Fulfilled (Some [summary "A"; None]))
    (fun _ => Fulfilled None).

Definition sample_box : SearchBox := mkSearchBox " ch " ["garlic"].

(* ================================================================= *)
(** ** The wording of the specification, stated on its own

    These definitions follow the words of the specification and use none
    of the functions that embed the code; the theorems compare the two. *)

(** White space, character by character: tab, line feed, vertical tab,
    form feed, carriage return, space and no-break space. *)
Definition spec_white_space : list ascii :=
  ["009"; "010"; "011"; "012"; "013"; " "; "160"]%char.

Definition spec_is_white (c : ascii) : bool :=
  existsb (Ascii.eqb c) spec_white_space.

(** Number of white-space characters a text starts with. *)
Fixpoint leading_white (l : list ascii) : nat :=
  match l with
  | [] => 0
  | c :: r => if spec_is_white c then S (leading_white r) else 0
  end.

(** Length of a text once its leading and its trailing white space are
    taken off (0 for a text of white space only). *)
Definition trimmed_length (l : list ascii) : nat :=
  List.length l - leading_white l - leading_white (rev l).

(** The separators of instruction segments: newline, period, carriage
    return. *)
Definition spec_separators : list ascii := ["010"; "."; "013"]%char.

Definition spec_is_separator (c : ascii) : bool :=
  existsb (Ascii.eqb c) spec_separators.

(** The segments of a text, read from left to right: [cur] holds, last
    character first, the segment being read. *)
Fixpoint segments_from (cur l : list ascii) : list (list ascii) :=
  match l with
  | [] => [rev cur]
  | c :: r =>
      if spec_is_separator c then rev cur :: segments_from [] r
      else segments_from (c :: cur) r
  end.

(** Number of instruction segments whose trimmed length exceeds 6. *)
Definition qualifyingInstructionSegments (t : string) : nat :=
  List.length
    (List.filter (fun seg => (6 <? trimmed_length seg)%nat)
       (segments_from [] (list_ascii_of_string t))).

(** The letters that differ by case only: A-Z with a-z, and the capital
    letters of the Latin-1 supplement (0xC0-0xDE without the
    multiplication sign 0xD7) with the letters 32 places further. *)
Definition case_pairs : list (ascii * ascii) :=
  (combine (list_ascii_of_string "ABCDEFGHIJKLMNOPQRSTUVWXYZ")
     (list_ascii_of_string "abcdefghijklmnopqrstuvwxyz")
   ++ map (fun n => (ascii_of_nat n, ascii_of_nat (n + 32)))
        (List.filter (fun n => negb (n =? 215)%nat) (seq 192 31)))%list.

(** Two characters are the same up to case. *)
Definition same_letter (a b : ascii) : bool :=
  Ascii.eqb a b
  || existsb (fun p => Ascii.eqb a (fst p) && Ascii.eqb b (snd p)
                       || Ascii.eqb a (snd p) && Ascii.eqb b (fst p))
       case_pairs.

(** [q] occurs in [n] as a case-insensitive substring: some run of
    consecutive characters of [n] equals [q] character by character up
    to case. *)
Definition ci_occurs (q n : string) : Prop :=
  exists pre mid post,
    list_ascii_of_string n = (pre ++ mid ++ post)%list
    /\ Forall2 (fun a b => same_letter a b = true) mid (list_ascii_of_string q).

(** All 256 characters. *)
Definition all_ascii : list ascii := map ascii_of_nat (seq 0 256).

(** The estimate never decreases when the instruction text gets longer:
    the reading of "non-decreasing in the instruction length" by the
    number of characters. *)
Definition estimate_monotone_in_length : Prop :=
  forall (meal : JsObj) (t : string),
    String.length (instructions (Some meal)) <= String.length t ->
    (estimateCookTime (Some meal)
     <= estimateCookTime (Some (<["strInstructions" := JStr t]> meal)))%Z.

(** The estimate never decreases when text is put into the
    instructions, wherever it is put. *)
Definition estimate_monotone_under_insertion : Prop :=
  forall (meal : JsObj) (before inserted after : string),
    instructions (Some meal) = before +:+ after ->
    (estimateCookTime (Some meal)
     <= estimateCookTime
          (Some (<["strInstructions" :=
                     JStr (before +:+ inserted +:+ after)]> meal)))%Z.

(* ================================================================= *)
(** ** Strings *)

Lemma chars_app (a b : string) : chars (a +:+ b) = (chars a ++ chars b)%list.
Proof. induction a as [|c a IH]; simpl; [reflexivity|]. unfold chars in *. simpl. now rewrite IH. Qed.

Lemma text_chars (s : string) : text (chars s) = s.
Proof. apply string_of_list_ascii_of_string. Qed.

Lemma chars_text (l : list ascii) : chars (text l) = l.
Proof. apply list_ascii_of_string_of_list_ascii. Qed.

Lemma length_text (l : list ascii) : String.length (text l) = List.length l.
Proof. induction l as [|c l IH]; simpl; [reflexivity|]. unfold text in *. simpl. now rewrite IH. Qed.

Lemma text_empty (l : list ascii) : String.eqb (text l) "" = true <-> l = [].
Proof. destruct l; simpl; split; intros H; try reflexivity; discriminate. Qed.

Lemma trim_empty : trim "" = "".
Proof. reflexivity. Qed.

Lemma skip_white_length (y z : list ascii) :
  List.length (skip_white z) <= List.length (skip_white (y ++ z)).
Proof.
  induction y as [|c y IH]; simpl; [lia|].
  destruct (is_white c); [exact IH|].
  simpl. rewrite length_app.
  assert (List.length (skip_white z) <= List.length z); [|lia].
  clear. induction z as [|d z IH]; simpl; [lia|].
  destruct (is_white d); simpl; lia.
Qed.

Lemma skip_white_app (l x : list ascii) :
  skip_white l <> [] -> skip_white (l ++ x) = (skip_white l ++ x)%list.
Proof.
  induction l as [|c l IH]; simpl; [congruence|].
  destruct (is_white c); [exact IH|reflexivity].
Qed.

(** Appending text never shortens the trimmed form. *)
Lemma trim_chars_app_length (l x : list ascii) :
  List.length (trim_chars l) <= List.length (trim_chars (l ++ x)).
Proof.
  unfold trim_chars. rewrite !length_rev.
  destruct (skip_white l) as [|c r] eqn:E; [simpl; lia|].
  rewrite skip_white_app by (rewrite E; discriminate).
  rewrite E, rev_app_distr. apply skip_white_length.
Qed.

(* ================================================================= *)
(** ** [split] *)

Lemma split_chars_nonempty sep l : split_chars sep l <> [].
Proof. induction l as [|c l IH]; simpl; [discriminate|]. destruct (sep c); [discriminate|]. destruct (split_chars sep l); discriminate. Qed.

(** No piece holds a separator. *)
Lemma split_chars_no_sep sep l :
  Forall (fun seg => forallb (fun c => negb (sep c)) seg = true) (split_chars sep l).
Proof.
  induction l as [|c l IH]; simpl.
  - repeat constructor.
  - destruct (sep c) eqn:E.
    + constructor; [reflexivity|exact IH].
    + destruct (split_chars sep l) as [|seg segs]; inversion IH; subst; constructor; simpl; auto.
      * now rewrite E.
      * now rewrite E.
Qed.

(** There is one piece more than there are separators. *)
Lemma split_chars_length sep l :
  List.length (split_chars sep l) = S (List.length (List.filter sep l)).
Proof.
  induction l as [|c l IH]; simpl; [reflexivity|].
  destruct (sep c); simpl; [now rewrite IH|].
  destruct (split_chars sep l); simpl in *; lia.
Qed.

(** Appending [x] to a text glues the first piece of [x] to its last
    piece. *)
Lemma split_chars_app sep (a b : list ascii) :
  exists pieces last_a first_b more,
    split_chars sep a = (pieces ++ [last_a])%list
    /\ split_chars sep b = first_b :: more
    /\ split_chars sep (a ++ b) = (pieces ++ (last_a ++ first_b) :: more)%list.
Proof.
  induction a as [|c a IH]; simpl.
  - destruct (split_chars sep b) as [|fb more] eqn:E.
    + now destruct (split_chars_nonempty sep b).
    + exists [], [], fb, more. auto.
  - destruct IH as (pieces & la & fb & more & Ha & Hb & Hab).
    destruct (sep c).
    + exists ([] :: pieces), la, fb, more. rewrite Ha, Hab. auto.
    + rewrite Ha, Hab. destruct pieces as [|p ps]; simpl.
      * exists [], (c :: la), fb, more. auto.
      * exists ((c :: p) :: ps), la, fb, more. auto.
Qed.

Lemma long_step_text_app (l x : list ascii) :
  long_step (text l) = true -> long_step (text (l ++ x)) = true.
Proof.
  unfold long_step, trim. rewrite !chars_text, !length_text.
  pose proof (trim_chars_app_length l x).
  rewrite !Nat.ltb_lt. lia.
Qed.

Lemma qualifyingSegments_app (s t : string) :
  qualifyingSegments s <= qualifyingSegments (s +:+ t).
Proof.
  unfold qualifyingSegments, split. rewrite chars_app.
  destruct (split_chars_app is_step_sep (chars s) (chars t))
    as (pieces & la & fb & more & -> & _ & ->).
  rewrite !map_app, !List.filter_app, !length_app. simpl.
  destruct (long_step (text la)) eqn:E.
  - rewrite (long_step_text_app _ fb E). simpl. lia.
  - simpl. lia.
Qed.

(* ================================================================= *)
(** ** [extractIngredients] and [estimateCookTime] *)

Lemma extract_from_length meal i todo pairs :
  List.length (extract_from meal i todo pairs)
  = List.length pairs + List.length (List.filter (populated meal) (seq i todo)).
Proof.
  revert i pairs. induction todo as [|n IH]; intros i pairs; simpl; [lia|].
  rewrite IH. unfold populated at 2.
  destruct (get meal (slotKey "strIngredient" i)) as [| |s]; simpl; try lia.
  destruct (String.eqb s "") eqn:E; simpl.
  - apply String.eqb_eq in E. subst s. rewrite trim_empty. simpl. lia.
  - destruct (String.eqb (trim s) ""); simpl; rewrite ?length_app; simpl; lia.
Qed.

Lemma extractIngredients_length meal :
  List.length (extractIngredients meal) = ingredientCount meal.
Proof.
  destruct meal as [m|]; [|reflexivity].
  unfold extractIngredients, ingredientCount. now rewrite extract_from_length.
Qed.

Lemma Math_round_int z : Math_round z = z.
Proof. unfold Math_round. symmetry. apply (Z.div_unique _ _ _ 1); lia. Qed.

Lemma estimateCookTime_eq meal :
  estimateCookTime meal
  = Z.min 120 (10 + 2 * Z.of_nat (ingredientCount meal)
               + 2 * Z.of_nat (qualifyingSegments (instructions meal)))%Z.
Proof.
  unfold estimateCookTime. rewrite Math_round_int, extractIngredients_length.
  unfold qualifyingSegments, instructions. f_equal. lia.
Qed.

(* ================================================================= *)
(** ** The segment count of the specification *)

Lemma spec_is_white_eq (c : ascii) : spec_is_white c = is_white c.
Proof. destruct c as [[] [] [] [] [] [] [] []]; reflexivity. Qed.

Lemma spec_is_separator_eq (c : ascii) : spec_is_separator c = is_step_sep c.
Proof. destruct c as [[] [] [] [] [] [] [] []]; reflexivity. Qed.

Lemma skip_white_leading (l : list ascii) :
  List.length (skip_white l) = List.length l - leading_white l
  /\ leading_white l <= List.length l
  /\ exists p, l = (p ++ skip_white l)%list /\ List.length p = leading_white l.
Proof.
  induction l as [|c l (IH1 & IH2 & p & IH3 & IH4)]; simpl.
  - split; [reflexivity|]. split; [lia|]. now exists [].
  - rewrite spec_is_white_eq. destruct (is_white c); simpl.
    + split; [exact IH1|]. split; [lia|]. exists (c :: p). simpl.
      split; [now rewrite <- IH3|now rewrite IH4].
    + split; [lia|]. split; [lia|]. now exists [].
Qed.

Lemma skip_white_clean_head (l : list ascii) :
  match skip_white l with
  | [] => True
  | c :: _ => is_white c = false
  end.
Proof.
  induction l as [|c l IH]; simpl; [exact I|].
  destruct (is_white c) eqn:E; [exact IH|exact E].
Qed.

Lemma leading_white_snoc (x : list ascii) (c : ascii) :
  is_white c = false -> leading_white (x ++ [c]) <= List.length x.
Proof.
  intros Hc. induction x as [|d x IH]; simpl.
  - now rewrite spec_is_white_eq, Hc.
  - destruct (spec_is_white d); lia.
Qed.

Lemma leading_white_app (a b : list ascii) :
  leading_white a < List.length a -> leading_white (a ++ b) = leading_white a.
Proof.
  induction a as [|c a IH]; simpl; [lia|].
  destruct (spec_is_white c); [|reflexivity]. intros H. rewrite IH; lia.
Qed.

(** The trimmed length of the specification is the length of the trimmed
    text. *)
Lemma trimmed_length_trim (l : list ascii) :
  trimmed_length l = List.length (trim_chars l).
Proof.
  unfold trimmed_length, trim_chars. rewrite length_rev.
  destruct (skip_white_leading l) as (H1 & H2 & p & Hp & Hlen).
  destruct (skip_white_leading (rev (skip_white l))) as (G1 & _ & _).
  rewrite G1, length_rev, H1.
  destruct (skip_white l) as [|c z] eqn:E.
  - simpl in *. lia.
  - assert (Hc : is_white c = false).
    { destruct l as [|d l]; [discriminate|].
      pose proof (skip_white_clean_head (d :: l)) as W. now rewrite E in W. }
    assert (Hr : leading_white (rev (c :: z)) < List.length (rev (c :: z))).
    { simpl. rewrite length_app. simpl.
      pose proof (leading_white_snoc (rev z) c Hc). lia. }
    rewrite Hp at 3. rewrite rev_app_distr, (leading_white_app _ _ Hr). lia.
Qed.

Lemma segments_from_split (cur l : list ascii) :
  segments_from cur l
  = match split_chars is_step_sep l with
    | seg :: segs => (rev cur ++ seg)%list :: segs
    | [] => []
    end.
Proof.
  revert cur. induction l as [|c l IH]; intros cur; simpl.
  - now rewrite app_nil_r.
  - rewrite spec_is_separator_eq. destruct (is_step_sep c).
    + rewrite IH. simpl. rewrite app_nil_r.
      destruct (split_chars is_step_sep l) as [|seg segs] eqn:E;
        [now destruct (split_chars_nonempty is_step_sep l)|reflexivity].
    + rewrite IH. simpl.
      destruct (split_chars is_step_sep l) as [|seg segs] eqn:E;
        [now destruct (split_chars_nonempty is_step_sep l)|].
      now rewrite <- app_assoc.
Qed.

Lemma segments_split (l : list ascii) :
  segments_from [] l = split_chars is_step_sep l.
Proof.
  rewrite segments_from_split.
  destruct (split_chars is_step_sep l) eqn:E; [|reflexivity].
  now destruct (split_chars_nonempty is_step_sep l).
Qed.

Lemma long_step_text (seg : list ascii) :
  long_step (text seg) = (6 <? trimmed_length seg)%nat.
Proof.
  unfold long_step, trim. now rewrite chars_text, length_text, trimmed_length_trim.
Qed.

(** The callback and the regular expression of the code count the
    segments of the specification. *)
Lemma qualifyingSegments_spec (t : string) :
  qualifyingSegments t = qualifyingInstructionSegments t.
Proof.
  unfold qualifyingSegments, qualifyingInstructionSegments, split.
  fold (chars t). rewrite segments_split.
  induction (split_chars is_step_sep (chars t)) as [|seg segs IH]; [reflexivity|].
  cbn [map List.filter]. rewrite long_step_text.
  destruct (6 <? trimmed_length seg)%nat; cbn [List.length]; now rewrite IH.
Qed.

(** C2: the estimate is [min(120, round(10 + 2*ingredientCount +
    2*qualifyingInstructionSegments))], where the first count is that of
    the populated slots among slots 1 to 20 and the second that of the
    instruction segments, cut at newline, period and carriage return,
    whose trimmed length exceeds 6, both taken as the specification words
    them; rounding changes nothing since the sum is an integer; the
    estimate always lies between 10 and 120. *)
Theorem estimateCookTime_formula (meal : option JsObj) :
  estimateCookTime meal
  = Z.min 120
      (Math_round (10 + 2 * Z.of_nat (ingredientCount meal)
                   + 2 * Z.of_nat (qualifyingInstructionSegments
                                     (instructions meal))))%Z
  /\ estimateCookTime meal
     = Z.min 120
         (10 + 2 * Z.of_nat (ingredientCount meal)
          + 2 * Z.of_nat (qualifyingInstructionSegments (instructions meal)))%Z
  /\ (10 <= estimateCookTime meal <= 120)%Z.
Proof.
  rewrite Math_round_int, estimateCookTime_eq, qualifyingSegments_spec.
  split; [reflexivity|]. split; [reflexivity|lia].
Qed.

(** The count on a text with all three separators, white space around a
    segment and segments of 6 and of 7 letters. *)
Example qualifyingInstructionSegments_sample :
  qualifyingInstructionSegments
    (String "009" "  abcdefg  " +:+ String "010" "abcdef" +:+ String "013" "a b c d."
     +:+ "1234567.      .")
  = 3
  /\ estimateCookTime
       (Some {[ "strInstructions" :=
                  JStr (String "009" "  abcdefg  " +:+ String "010" "abcdef"
                        +:+ String "013" "a b c d." +:+ "1234567.      .") ]})
     = 16%Z.
Proof. split; vm_compute; reflexivity. Qed.

Lemma slotKey_inj field i j : slotKey field i = slotKey field j -> i = j.
Proof.
  unfold slotKey. intros H.
  apply (inj (String.app field)) in H. now apply (inj pretty) in H.
Qed.

Lemma slotKey_not_instructions i :
  slotKey "strIngredient" i <> "strInstructions".
Proof. unfold slotKey. simpl. discriminate. Qed.

Lemma get_insert (m : JsObj) k k' v :
  get (<[k := v]> m) k' = if decide (k = k') then v else get m k'.
Proof. unfold get. rewrite lookup_insert. now destruct (decide (k = k')). Qed.

Lemma populated_insert (m : JsObj) j name i :
  populated (<[slotKey "strIngredient" j := JStr name]> m) i
  = if decide (j = i) then negb (String.eqb (trim name) "") else populated m i.
Proof.
  unfold populated. rewrite get_insert.
  destruct (decide (slotKey "strIngredient" j = slotKey "strIngredient" i)) as [E|N].
  - apply slotKey_inj in E. subst. now rewrite decide_True.
  - rewrite decide_False; [reflexivity|]. intros ->. now apply N.
Qed.

Lemma filter_length_mono {A} (p q : A -> bool) (l : list A) :
  (forall x, p x = true -> q x = true) ->
  List.length (List.filter p l) <= List.length (List.filter q l).
Proof.
  intros H. induction l as [|x l IH]; simpl; [lia|].
  destruct (p x) eqn:E.
  - rewrite (H x E). simpl. lia.
  - destruct (q x); simpl; lia.
Qed.

Lemma ingredientCount_add_slot (meal : JsObj) i name :
  trim name <> "" ->
  ingredientCount (Some meal)
  <= ingredientCount (Some (<[slotKey "strIngredient" i := JStr name]> meal)).
Proof.
  intros Hname. unfold ingredientCount. apply filter_length_mono.
  intros k Hk. rewrite populated_insert. destruct (decide (i = k)); [|exact Hk].
  apply negb_true_iff, String.eqb_neq, Hname.
Qed.

Lemma populated_set_instructions (meal : JsObj) v i :
  populated (<["strInstructions" := v]> meal) i = populated meal i.
Proof.
  unfold populated. rewrite get_insert, decide_False; [reflexivity|].
  intros H. symmetry in H. now apply slotKey_not_instructions in H.
Qed.

Lemma ingredientCount_set_instructions (meal : JsObj) v :
  ingredientCount (Some (<["strInstructions" := v]> meal))
  = ingredientCount (Some meal).
Proof.
  unfold ingredientCount. f_equal. apply List.filter_ext.
  intros i. apply populated_set_instructions.
Qed.

Lemma instructions_add_slot (meal : JsObj) i v :
  instructions (Some (<[slotKey "strIngredient" i := v]> meal))
  = instructions (Some meal).
Proof.
  unfold instructions, get_opt. rewrite get_insert, decide_False; [reflexivity|].
  apply slotKey_not_instructions.
Qed.

Lemma instructions_set (meal : JsObj) t :
  instructions (Some (<["strInstructions" := JStr t]> meal)) = t.
Proof. unfold instructions, get_opt. rewrite get_insert, decide_True; reflexivity. Qed.

Lemma estimateCookTime_mono (m m' : option JsObj) :
  ingredientCount m <= ingredientCount m' ->
  qualifyingSegments (instructions m) <= qualifyingSegments (instructions m') ->
  (estimateCookTime m <= estimateCookTime m')%Z.
Proof. intros H1 H2. rewrite !estimateCookTime_eq. lia. Qed.

(** C6, as the code has it: the estimate never decreases when the
    ingredient count and the count of qualifying instruction segments do
    not; in particular it does not decrease when a populated ingredient
    slot is added to a record, nor when text is appended at the end of
    its instructions.  (The number of characters of the instructions does
    not order the estimates.) *)
Theorem estimateCookTime_monotone
  (m m' : option JsObj) (meal : JsObj) (i : nat) (name extra : string) :
  (ingredientCount m <= ingredientCount m' ->
   qualifyingInstructionSegments (instructions m)
   <= qualifyingInstructionSegments (instructions m') ->
   (estimateCookTime m <= estimateCookTime m')%Z)
  /\ (trim name <> "" ->
      (estimateCookTime (Some meal)
       <= estimateCookTime
            (Some (<[slotKey "strIngredient" i := JStr name]> meal)))%Z)
  /\ (estimateCookTime (Some meal)
      <= estimateCookTime
           (Some (<["strInstructions" :=
                      JStr (instructions (Some meal) +:+ extra)]> meal)))%Z.
Proof.
  split.
  { intros H1 H2. apply estimateCookTime_mono; [exact H1|].
    now rewrite !qualifyingSegments_spec. }
  split.
  - intros Hname. apply estimateCookTime_mono.
    + now apply ingredientCount_add_slot.
    + now rewrite instructions_add_slot.
  - apply estimateCookTime_mono.
    + now rewrite ingredientCount_set_instructions.
    + rewrite instructions_set. apply qualifyingSegments_app.
Qed.

(* ================================================================= *)
(** ** Substring search *)

Lemma starts_with_spec (q s : list ascii) :
  starts_with q s = true <-> exists post, s = (q ++ post)%list.
Proof.
  revert s. induction q as [|a q IH]; intros s; simpl.
  - split; [exists s; reflexivity|reflexivity].
  - destruct s as [|b s].
    + split; [discriminate|]. intros [post H]. discriminate.
    + rewrite andb_true_iff, Ascii.eqb_eq, IH. split.
      * intros [-> [post ->]]. now exists post.
      * intros [post H]. injection H as -> ->. split; [reflexivity|now exists post].
Qed.

Lemma includes_chars_spec (s q : list ascii) :
  includes_chars s q = true <-> exists pre post, s = (pre ++ q ++ post)%list.
Proof.
  induction s as [|c s IH]; simpl.
  - rewrite orb_false_r, starts_with_spec. split.
    + intros [post H]. now exists [], post.
    + intros (pre & post & H). destruct pre; [now exists post|discriminate].
  - rewrite orb_true_iff, starts_with_spec, IH. split.
    + intros [[post H]|(pre & post & H)].
      * now exists [], post.
      * exists (c :: pre), post. simpl. now rewrite H.
    + intros (pre & post & H). destruct pre as [|c' pre]; simpl in H.
      * left. now exists post.
      * right. injection H as -> ->. now exists pre, post.
Qed.

Lemma toLowerCase_app (a b : string) :
  toLowerCase (a +:+ b) = toLowerCase a +:+ toLowerCase b.
Proof.
  unfold toLowerCase. rewrite chars_app, map_app.
  rewrite <- (text_chars (text _ +:+ text _)), chars_app, !chars_text.
  reflexivity.
Qed.

(** [n.toLowerCase().includes(q.toLowerCase())] is the search for [q] in
    [n] up to case. *)
Lemma includes_lower_spec (n q : string) :
  includes (toLowerCase n) (toLowerCase q) = true <-> ci_substring q n.
Proof.
  unfold includes. rewrite includes_chars_spec. unfold ci_substring. split.
  - intros (pre & post & H). unfold toLowerCase in H at 1. rewrite chars_text in H.
    apply map_eq_app in H as (a & r & Hn & Ha & Hr).
    apply map_eq_app in Hr as (b & c & Hr & Hb & Hc).
    exists (text a), (text b), (text c). split.
    + rewrite <- (text_chars n), <- (text_chars (_ +:+ _)). f_equal.
      rewrite !chars_app, !chars_text. now rewrite Hn, Hr.
    + unfold toLowerCase at 1. rewrite chars_text, Hb. apply text_chars.
  - intros (pre & mid & post & -> & Hmid).
    exists (chars (toLowerCase pre)), (chars (toLowerCase post)).
    now rewrite !toLowerCase_app, !chars_app, Hmid.
Qed.

Lemma Array_includes_spec (arr : list string) (x : string) :
  Array_includes arr x = true <-> In x arr.
Proof.
  unfold Array_includes. rewrite existsb_exists. split.
  - intros (y & Hy & E). apply String.eqb_eq in E. now subst.
  - intros H. exists x. split; [exact H|apply String.eqb_refl].
Qed.

(* ================================================================= *)
(** ** The sorted catalogue *)

Section Sorting.

Variable cmp : string -> string -> Z.
Hypothesis cmp_ok : consistent_comparator cmp.

Lemma sort_insert_In x l y : In y (sort_insert cmp x l) <-> y = x \/ In y l.
Proof.
  induction l as [|z l IH]; simpl; [intuition congruence|].
  destruct (cmp x z <=? 0)%Z; simpl; [intuition congruence|].
  rewrite IH. intuition congruence.
Qed.

Lemma sort_insert_sorted x l :
  StronglySorted (cmp_le cmp) l -> StronglySorted (cmp_le cmp) (sort_insert cmp x l).
Proof.
  destruct cmp_ok as [Htotal Htrans].
  induction l as [|z l IH]; intros Hs; simpl.
  - repeat constructor.
  - apply StronglySorted_inv in Hs as [Hl Hz].
    destruct (cmp x z <=? 0)%Z eqn:E.
    + apply Z.leb_le in E. constructor; [constructor; assumption|].
      constructor; [exact E|].
      eapply Forall_impl; [exact Hz|]. intros a Ha. exact (Htrans _ _ _ E Ha).
    + apply Z.leb_gt in E. constructor; [apply IH, Hl|].
      apply List.Forall_forall. intros a Ha. apply sort_insert_In in Ha as [->|Ha].
      * destruct (Htotal z x) as [H|H]; [exact H|]. unfold cmp_le. lia.
      * rewrite List.Forall_forall in Hz. now apply Hz.
Qed.

Lemma Array_sort_sorted l : StronglySorted (cmp_le cmp) (Array_sort cmp l).
Proof. induction l; simpl; [constructor|now apply sort_insert_sorted]. Qed.

Lemma loadIngredients_sorted resp :
  StronglySorted (cmp_le cmp) (loadIngredients cmp resp).
Proof. destruct resp; simpl; [constructor|apply Array_sort_sorted]. Qed.

End Sorting.

Lemma StronglySorted_filter {A} (R : A -> A -> Prop) (p : A -> bool) l :
  StronglySorted R l -> StronglySorted R (List.filter p l).
Proof.
  induction 1 as [|x l Hl IH Hx]; simpl; [constructor|].
  destruct (p x); [|exact IH]. constructor; [exact IH|].
  apply List.Forall_forall. intros y Hy. apply filter_In in Hy as [Hy _].
  rewrite List.Forall_forall in Hx. now apply Hx.
Qed.

Lemma StronglySorted_take {A} (R : A -> A -> Prop) k (l : list A) :
  StronglySorted R l -> StronglySorted R (take k l).
Proof.
  intros H. rewrite <- (take_drop k l) in H.
  now apply StronglySorted_app_1_l in H.
Qed.

(* ================================================================= *)
(** ** Case-insensitive occurrence, as the specification words it *)

Lemma all_ascii_In (a : ascii) : In a all_ascii.
Proof.
  unfold all_ascii. apply in_map_iff. exists (nat_of_ascii a). split.
  - apply ascii_nat_embedding.
  - apply in_seq. pose proof (nat_ascii_bounded a). lia.
Qed.

Lemma same_letter_table :
  forallb (fun a =>
    forallb (fun b =>
      Bool.eqb (same_letter a b) (Ascii.eqb (lower_char a) (lower_char b)))
      all_ascii) all_ascii = true.
Proof. vm_compute. reflexivity. Qed.

(** Two characters are the same up to case exactly when [toLowerCase]
    sends them to the same character. *)
Lemma same_letter_lower (a b : ascii) :
  same_letter a b = true <-> lower_char a = lower_char b.
Proof.
  pose proof same_letter_table as T. rewrite forallb_forall in T.
  specialize (T a (all_ascii_In a)). rewrite forallb_forall in T.
  specialize (T b (all_ascii_In b)). apply Bool.eqb_prop in T.
  rewrite T. apply Ascii.eqb_eq.
Qed.

Lemma same_letters_lower (x y : list ascii) :
  Forall2 (fun a b => same_letter a b = true) x y
  <-> map lower_char x = map lower_char y.
Proof.
  revert y. induction x as [|a x IH]; intros [|b y]; simpl.
  - split; [reflexivity|constructor].
  - split; [intros H; inversion H|discriminate].
  - split; [intros H; inversion H|discriminate].
  - split.
    + intros H. inversion H; subst. f_equal; [now apply same_letter_lower|now apply IH].
    + intros [= H1 H2]. constructor; [now apply same_letter_lower|now apply IH].
Qed.

Lemma text_inj (x y : list ascii) : text x = text y -> x = y.
Proof. intros H. apply (f_equal chars) in H. now rewrite !chars_text in H. Qed.

Lemma ci_occurs_substring (q n : string) : ci_occurs q n <-> ci_substring q n.
Proof.
  unfold ci_occurs, ci_substring. split.
  - intros (pre & mid & post & Hn & Hm). exists (text pre), (text mid), (text post).
    split.
    + rewrite <- (text_chars n). fold (chars n). rewrite <- (text_chars (_ +:+ _)).
      f_equal. now rewrite !chars_app, !chars_text.
    + unfold toLowerCase. f_equal. rewrite chars_text. now apply same_letters_lower.
  - intros (pre & mid & post & -> & Hm). exists (chars pre), (chars mid), (chars post).
    split.
    + fold (chars (pre +:+ mid +:+ post)). now rewrite !chars_app.
    + apply same_letters_lower. unfold toLowerCase in Hm. now apply text_inj in Hm.
Qed.

(** The test made by the code, [n.toLowerCase().includes(q)] with [q]
    the query in lower case, finds the case-insensitive occurrences of
    the specification. *)
Lemma includes_lower_occurs (n q : string) :
  includes (toLowerCase n) (toLowerCase q) = true <-> ci_occurs q n.
Proof. rewrite includes_lower_spec. symmetry. apply ci_occurs_substring. Qed.

(** C9: an empty query gives no suggestion; otherwise the suggestions are
    the catalogue names in which the query occurs as a case-insensitive
    substring (character by character up to case, as the specification
    words it) and which are not chosen yet, in the order of the
    catalogue, cut to the first 10.  The loaded catalogue is sorted by
    the comparator, and so are the suggestions drawn from it. *)
Theorem suggestions_spec
  (cmp : string -> string -> Z) (resp : Promise Payload)
  (query : string) (allIngredients selected : list string) :
  suggestions "" allIngredients selected = []
  /\ (query <> "" ->
      exists keep : string -> bool,
        (forall n, keep n = true <-> ci_occurs query n /\ ~ In n selected)
        /\ suggestions query allIngredients selected
           = take 10 (List.filter keep allIngredients))
  /\ List.length (suggestions query allIngredients selected) <= 10
  /\ (consistent_comparator cmp ->
      StronglySorted (cmp_le cmp) (loadIngredients cmp resp)
      /\ StronglySorted (cmp_le cmp)
           (suggestions query (loadIngredients cmp resp) selected)).
Proof.
  split; [reflexivity|]. split; [|split].
  - intros Hq.
    exists (fun n => includes (toLowerCase n) (toLowerCase query)
                     && negb (Array_includes selected n)).
    split.
    + intros n. rewrite andb_true_iff, includes_lower_occurs, negb_true_iff.
      rewrite <- not_true_iff_false, Array_includes_spec. reflexivity.
    + unfold suggestions. apply String.eqb_neq in Hq. now rewrite Hq.
  - unfold suggestions. destruct (String.eqb query ""); simpl; [lia|].
    rewrite length_take. lia.
  - intros Hcmp. split; [now apply loadIngredients_sorted|].
    unfold suggestions. destruct (String.eqb query ""); [constructor|].
    apply StronglySorted_take, StronglySorted_filter.
    now apply loadIngredients_sorted.
Qed.

(* ================================================================= *)
(** ** Sets of identifiers *)

Lemma Set_has_spec (s : list JsVal) (x : JsVal) : Set_has s x = true <-> x ∈ s.
Proof. unfold Set_has. apply bool_decide_eq_true. Qed.

Lemma Set_add_elem (l acc : list JsVal) (x : JsVal) :
  x ∈ fold_left (fun acc x => if Set_has acc x then acc else acc ++ [x])%list l acc
  <-> x ∈ acc \/ x ∈ l.
Proof.
  revert acc. induction l as [|y l IH]; intros acc; simpl.
  - rewrite elem_of_nil. tauto.
  - rewrite IH, elem_of_cons. destruct (Set_has acc y) eqn:E.
    + apply Set_has_spec in E. split; [tauto|]. intros [H|[->|H]]; tauto.
    + rewrite elem_of_app, list_elem_of_singleton. tauto.
Qed.

Lemma Set_new_elem (l : list JsVal) (x : JsVal) : x ∈ Set_new l <-> x ∈ l.
Proof. unfold Set_new. rewrite Set_add_elem, elem_of_nil. tauto. Qed.

Lemma Set_add_NoDup (l acc : list JsVal) :
  NoDup acc ->
  NoDup (fold_left (fun acc x => if Set_has acc x then acc else acc ++ [x])%list l acc).
Proof.
  revert acc. induction l as [|y l IH]; intros acc Hacc; simpl; [exact Hacc|].
  apply IH. destruct (Set_has acc y) eqn:E; [exact Hacc|].
  apply NoDup_app. split; [exact Hacc|]. split; [|apply NoDup_singleton].
  intros z Hz Hy. apply list_elem_of_singleton in Hy. subst z.
  apply Set_has_spec in Hz. congruence.
Qed.

(** A [Set] holds no value twice. *)
Lemma Set_new_NoDup (l : list JsVal) : NoDup (Set_new l).
Proof. apply Set_add_NoDup. constructor. Qed.

Lemma intersect_step_elem acc s i x :
  intersect_step acc s = Some i -> x ∈ i ->
  x ∈ s /\ (forall a, acc = Some a -> x ∈ a).
Proof.
  unfold intersect_step. destruct acc as [a|]; intros [= <-] Hx;
    rewrite Set_new_elem in Hx.
  - apply list_elem_of_In, filter_In in Hx as [Ha Hs].
    apply Set_has_spec in Hs. split; [exact Hs|].
    intros ? [= <-]. now apply list_elem_of_In.
  - split; [exact Hx|discriminate].
Qed.

Lemma intersect_fold_elem (sets : list (list JsVal)) acc r x :
  fold_left intersect_step sets acc = Some r -> x ∈ r ->
  (forall a, acc = Some a -> x ∈ a) /\ Forall (fun s => x ∈ s) sets.
Proof.
  revert acc. induction sets as [|s sets IH]; intros acc; simpl.
  - intros -> Hx. split; [|constructor]. now intros ? [= <-].
  - intros Hr Hx. destruct (IH _ Hr Hx) as [Hacc Hsets].
    destruct (intersect_step acc s) as [i|] eqn:E.
    + destruct (intersect_step_elem _ _ _ x E (Hacc _ eq_refl)) as [Hs Ha].
      split; [exact Ha|]. constructor; assumption.
    + destruct acc; discriminate.
Qed.

(** An identifier of the intersection is in every set. *)
Lemma intersect_all_elem (sets : list (list JsVal)) x :
  x ∈ default [] (intersect_all sets) -> Forall (fun s => x ∈ s) sets.
Proof.
  unfold intersect_all. destruct (fold_left intersect_step sets None) as [r|] eqn:E.
  - simpl. intros Hx. now destruct (intersect_fold_elem _ _ _ _ E Hx).
  - simpl. now rewrite elem_of_nil.
Qed.

(** With one ingredient the intersection is its candidate set. *)
Lemma intersect_all_single (s : list JsVal) :
  intersect_all [s] = Some (Set_new s).
Proof. reflexivity. Qed.

(* ================================================================= *)
(** ** The run, step by step *)

Lemma emit_all_nil s : emit_all [] s = s.
Proof. destruct s. unfold emit_all. simpl. now rewrite app_nil_r. Qed.

Lemma emit_all_emit e es s : emit_all es (emit e s) = emit_all (e :: es) s.
Proof. unfold emit_all, emit. simpl. now rewrite <- app_assoc. Qed.

(** Issuing the per-ingredient requests: all go out, none throws. *)
Lemma issue_filters api ings s :
  mapM (filterByIngredient api) ings s
  = (Returned (map (filter_response api) ings),
     emit_all (map (fun ing => Fetch (FilterByIngredient ing)) ings) s).
Proof.
  revert s. induction ings as [|ing ings IH]; intros s; simpl.
  - now rewrite emit_all_nil.
  - unfold mbind, Run_bind, filterByIngredient at 1. simpl.
    rewrite IH, emit_all_emit. reflexivity.
Qed.

Lemma issue_lookups api ids s :
  mapM (fun id => p ← lookupById api id; mret (Promise_then p first_meal)) ids s
  = (Returned (map (lookup_record api) ids),
     emit_all (map (fun id => Fetch (LookupById id)) ids) s).
Proof.
  revert s. induction ids as [|id ids IH]; intros s; simpl.
  - now rewrite emit_all_nil.
  - unfold mbind, Run_bind, lookupById at 1. simpl.
    rewrite IH, emit_all_emit. reflexivity.
Qed.

(** Awaiting all answers and reading their identifiers fails exactly when
    some candidate set is undefined. *)
Lemma candidateSets_eq api ings :
  match Promise_all (map (filter_response api) ings) with
  | Fulfilled lists => mapM mealSet lists
  | Rejected => None
  end = candidateSets api ings.
Proof.
  unfold candidateSets. induction ings as [|ing ings IH]; [reflexivity|].
  change (mapM (candidateSet api) (ing :: ings))
    with (y ← candidateSet api ing; k ← mapM (candidateSet api) ings; mret (y :: k)).
  rewrite <- IH. unfold candidateSet. simpl.
  destruct (filter_response api ing) as [|d]; simpl; [reflexivity|].
  destruct (Promise_all (map (filter_response api) ings)) as [|lists]; simpl.
  - now destruct (mealSet d).
  - reflexivity.
Qed.

Lemma run_empty api f s :
  run api f [] s
  = (Returned tt,
     mkSession "" [] None (loading s)
       (trace s ++ [SetError ""; SetMeals []; SetSelectedMeal None])%list).
Proof.
  unfold run, mbind, Run_bind, setError, setMeals, setSelectedMeal, emit. simpl.
  now rewrite <- !app_assoc.
Qed.

Lemma run_try_spec api f ings s :
  run_try api f ings s
  = match fetchedDetails api ings with
    | Some clean =>
        let filtered := List.filter (keepMeal f) clean in
        (Returned tt,
         mkSession (error s) filtered (head filtered) (loading s)
           (trace s ++ fetchTrace api ings
            ++ [SetMeals filtered; SetSelectedMeal (head filtered)])%list)
    | None => (Thrown, emit_all (fetchTrace api ings) s)
    end.
Proof.
  unfold run_try, mbind at 1, Run_bind at 1. rewrite issue_filters.
  unfold mbind at 1, Run_bind at 1.
  unfold fetchedDetails, fetchTrace, lookupIds. rewrite <- candidateSets_eq.
  destruct (Promise_all (map (filter_response api) ings)) as [|lists]; simpl.
  - now rewrite app_nil_r.
  - destruct (mapM mealSet lists) as [sets|];
      [|simpl; now rewrite app_nil_r].
    unfold mbind at 1, Run_bind at 1, checked, mret at 1, Run_ret at 1.
    cbn [fmap option_fmap option_map mbind option_bind default].
    set (ids := take 20 (default [] (intersect_all sets))).
    unfold mbind at 1, Run_bind at 1. rewrite issue_lookups.
    destruct (Promise_all (map (lookup_record api) ids)) as [|details]; simpl.
    + unfold emit_all. simpl. now rewrite <- app_assoc.
    + unfold setMeals, setSelectedMeal, emit, emit_all. simpl.
      unfold mbind, Run_bind, mret, Run_ret. simpl.
      now rewrite <- !app_assoc.
Qed.

Lemma run_nonempty api f ings s :
  ings <> [] ->
  run api f ings s = (Returned tt, run_result api f ings s).
Proof.
  intros Hne. unfold run.
  destruct ings as [|ing0 rest]; [congruence|].
  set (ings := ing0 :: rest).
  unfold mbind, Run_bind, try_catch_finally. simpl.
  rewrite run_try_spec. unfold run_result.
  destruct (fetchedDetails api ings) as [clean|]; simpl.
  - unfold emit. simpl.
    repeat (progress (rewrite <- ?app_assoc; simpl)). reflexivity.
  - unfold emit, emit_all. simpl.
    repeat (progress (rewrite <- ?app_assoc; simpl)). reflexivity.
Qed.

Lemma final_run_nonempty api f ings s :
  ings <> [] -> final (run api f ings) s = run_result api f ings s.
Proof. intros H. unfold final. now rewrite run_nonempty. Qed.

(* ================================================================= *)
(** ** Promises *)

Lemma Promise_all_Fulfilled {A} (ps : list (Promise A)) (l : list A) :
  Promise_all ps = Fulfilled l <-> ps = map Fulfilled l.
Proof.
  revert l. induction ps as [|p ps IH]; intros l; simpl.
  - split.
    + intros [= <-]. reflexivity.
    + destruct l; [reflexivity|discriminate].
  - destruct p as [|a].
    + split; [discriminate|]. destruct l; discriminate.
    + destruct (Promise_all ps) as [|k] eqn:E.
      * split; [discriminate|]. destruct l as [|b l]; [discriminate|].
        intros [= -> H]. apply IH in H. discriminate.
      * split.
        -- intros [= <-]. simpl. f_equal. now apply IH.
        -- destruct l as [|b l]; [discriminate|]. intros [= -> H].
           apply IH in H. now injection H as ->.
Qed.

Lemma Promise_all_Rejected {A} (ps : list (Promise A)) :
  In Rejected ps -> Promise_all ps = Rejected.
Proof.
  induction ps as [|p ps IH]; simpl; [tauto|].
  intros [->|H]; [reflexivity|]. destruct p; [reflexivity|]. now rewrite IH.
Qed.

(* ================================================================= *)
(** ** What reaches the filtering step *)

Lemma lookup_record_found api id :
  lookup_response api id <> Rejected ->
  lookup_record api id = Fulfilled (found_record api id).
Proof.
  unfold lookup_record, found_record.
  destruct (lookup_response api id); [congruence|reflexivity].
Qed.

Lemma fetchedDetails_tolerant api ings ids :
  lookupIds api ings = Some ids ->
  (forall id, In id ids -> lookup_response api id <> Rejected) ->
  fetchedDetails api ings = Some (omap (found_record api) ids).
Proof.
  intros Hids Hok. unfold fetchedDetails. rewrite Hids. simpl.
  assert (E : map (lookup_record api) ids
              = map Fulfilled (map (found_record api) ids)).
  { rewrite map_map. apply map_ext_in. intros id Hid.
    now apply lookup_record_found, Hok. }
  apply Promise_all_Fulfilled in E. rewrite E. f_equal.
  clear. induction ids as [|i ids IH]; [reflexivity|].
  cbn [map omap list_omap]. cbn [omap list_omap] in IH.
  destruct (found_record api i); simpl; now rewrite IH.
Qed.

Lemma fetchedDetails_fatal api ings ids :
  lookupIds api ings = Some ids ->
  (exists id, In id ids /\ lookup_response api id = Rejected) ->
  fetchedDetails api ings = None.
Proof.
  intros Hids (id & Hid & Hrej). unfold fetchedDetails. rewrite Hids. simpl.
  rewrite Promise_all_Rejected; [reflexivity|].
  apply in_map_iff. exists id. split; [|exact Hid].
  unfold lookup_record. now rewrite Hrej.
Qed.

Lemma omap_length_le {A B} (f : A -> option B) (l : list A) :
  List.length (omap f l) <= List.length l.
Proof.
  induction l as [|x l IH]; [reflexivity|].
  change (omap f (x :: l))
    with (match f x with Some y => y :: omap f l | None => omap f l end).
  destruct (f x); simpl; lia.
Qed.

Lemma fetchedDetails_inv api ings clean :
  fetchedDetails api ings = Some clean ->
  exists ids,
    lookupIds api ings = Some ids
    /\ List.length clean <= List.length ids
    /\ forall meal, In meal clean ->
         exists id, In id ids /\ lookup_record api id = Fulfilled (Some meal).
Proof.
  unfold fetchedDetails. destruct (lookupIds api ings) as [ids|]; [|discriminate].
  simpl. destruct (Promise_all (map (lookup_record api) ids)) as [|details] eqn:E;
    [discriminate|].
  intros [= <-]. exists ids. split; [reflexivity|].
  apply Promise_all_Fulfilled in E. split.
  - transitivity (List.length details).
    + apply omap_length_le.
    + apply (f_equal (@List.length _)) in E. rewrite !length_map in E. lia.
  - intros meal Hmeal.
    assert (Hd : In (Some meal) details).
    { apply list_elem_of_In, list_elem_of_omap in Hmeal as (x & Hx & E').
      unfold id in E'. subst x. now apply list_elem_of_In. }
    assert (Hp : In (Fulfilled (Some meal)) (map (lookup_record api) ids)).
    { rewrite E. now apply in_map. }
    apply in_map_iff in Hp as (id & Hp & Hid). eauto.
Qed.

Lemma lookupIds_inv api ings ids :
  lookupIds api ings = Some ids ->
  List.length ids <= 20
  /\ forall id, In id ids -> forall ing, In ing ings ->
       exists S, candidateSet api ing = Some S /\ id ∈ S.
Proof.
  unfold lookupIds, candidateSets.
  destruct (mapM (candidateSet api) ings) as [sets|] eqn:E; [|discriminate].
  simpl. intros [= <-]. split; [rewrite length_take; lia|].
  intros id Hid ing Hing.
  apply list_elem_of_In, elem_of_take in Hid as (k & Hk & _). 
  apply list_elem_of_lookup_2, intersect_all_elem in Hk.
  apply mapM_Some_1 in E.
  apply list_elem_of_In, list_elem_of_lookup in Hing as [j Hj].
  destruct (Forall2_lookup_l _ _ _ _ _ E Hj) as (S & HS & Hc).
  exists S. split; [exact Hc|].
  rewrite Forall_lookup in Hk. exact (Hk _ _ HS).
Qed.

Lemma lookupIds_rejected api ings :
  (exists ing, In ing ings /\ filter_response api ing = Rejected) ->
  lookupIds api ings = None.
Proof.
  intros (ing & Hing & Hrej). unfold lookupIds, candidateSets.
  rewrite (mapM_None_2 (candidateSet api) ings); [reflexivity|].
  apply Exists_exists. exists ing. split; [now apply list_elem_of_In|].
  unfold candidateSet. now rewrite Hrej.
Qed.

(* ================================================================= *)
(** ** The effects of a run *)

Lemma filter_is_lookup_filters (ings : list string) :
  List.filter is_lookup (map (fun ing => Fetch (FilterByIngredient ing)) ings) = [].
Proof. induction ings; simpl; auto. Qed.

Lemma filter_is_lookup_lookups (ids : list JsVal) :
  List.length (List.filter is_lookup (map (fun id => Fetch (LookupById id)) ids))
  = List.length ids.
Proof. induction ids; simpl; auto. Qed.

Lemma filter_is_error_report_fetches api ings :
  List.filter is_error_report (fetchTrace api ings) = [].
Proof.
  unfold fetchTrace. rewrite List.filter_app.
  assert (H1 : forall l : list string,
    List.filter is_error_report (map (fun ing => Fetch (FilterByIngredient ing)) l) = [])
    by (induction l; simpl; auto).
  assert (H2 : forall l : list JsVal,
    List.filter is_error_report (map (fun id => Fetch (LookupById id)) l) = [])
    by (induction l; simpl; auto).
  now rewrite H1, H2.
Qed.

Lemma fetchTrace_lookups api ings :
  List.length (List.filter is_lookup (fetchTrace api ings)) <= 20.
Proof.
  unfold fetchTrace.
  rewrite List.filter_app, length_app, filter_is_lookup_filters,
    filter_is_lookup_lookups.
  simpl. destruct (lookupIds api ings) as [ids|] eqn:E; simpl; [|lia].
  now apply lookupIds_inv in E as [H _].
Qed.

Lemma fetchTrace_no_ids api ings :
  lookupIds api ings = None ->
  fetchTrace api ings = map (fun ing => Fetch (FilterByIngredient ing)) ings.
Proof. intros H. unfold fetchTrace. rewrite H. simpl. apply app_nil_r. Qed.

(** What a run adds to the trace. *)
Lemma run_result_trace api f ings s :
  exists tail,
    trace (run_result api f ings s)
    = (trace s
       ++ [SetError ""; SetMeals []; SetSelectedMeal None; SetLoading true]
       ++ fetchTrace api ings ++ tail)%list
    /\ List.filter is_lookup tail = []
    /\ List.filter is_fetch tail = [].
Proof.
  unfold run_result. destruct (fetchedDetails api ings) as [clean|]; simpl.
  - eexists. rewrite <- ?app_assoc. simpl. split; [reflexivity|]. split; reflexivity.
  - eexists. rewrite <- ?app_assoc. simpl. split; [reflexivity|]. split; reflexivity.
Qed.

(** C1: on a non-empty ingredient list, at most 20 identifiers are looked
    up and at most 20 records result; every resulting record is the one
    found for an identifier that lies in the candidate set of every
    ingredient, and carries that identifier when the service answers a
    lookup with the record asked for. *)
Theorem run_within_intersection
  (api : Upstream) (f : Filters) (ings : list string) (s : Session) :
  ings <> [] ->
  let s' := final (run api f ings) s in
  List.length (meals s') <= 20
  /\ (exists new, trace s' = (trace s ++ new)%list
                  /\ List.length (List.filter is_lookup new) <= 20)
  /\ (forall meal, In meal (meals s') ->
        exists id, lookup_record api id = Fulfilled (Some meal)
                   /\ forall ing, In ing ings ->
                        exists S, candidateSet api ing = Some S /\ id ∈ S)
  /\ (lookup_faithful api ->
      forall meal, In meal (meals s') -> forall ing, In ing ings ->
        exists S, candidateSet api ing = Some S /\ get meal "idMeal" ∈ S).
Proof.
  intros Hne s'. subst s'. rewrite (final_run_nonempty _ _ _ _ Hne).
  assert (Hrec : forall meal, In meal (meals (run_result api f ings s)) ->
            exists id, lookup_record api id = Fulfilled (Some meal)
                       /\ forall ing, In ing ings ->
                            exists S, candidateSet api ing = Some S /\ id ∈ S).
  { unfold run_result. destruct (fetchedDetails api ings) as [clean|] eqn:E;
      simpl; [|tauto].
    intros meal Hmeal. apply filter_In in Hmeal as [Hmeal _].
    apply fetchedDetails_inv in E as (ids & Hids & _ & Hclean).
    destruct (Hclean _ Hmeal) as (id & Hid & Hrec).
    exists id. split; [exact Hrec|].
    apply lookupIds_inv in Hids as [_ Hin]. now apply Hin. }
  split; [|split; [|split]].
  - unfold run_result. destruct (fetchedDetails api ings) as [clean|] eqn:E;
      simpl; [|lia].
    apply fetchedDetails_inv in E as (ids & Hids & Hlen & _).
    apply lookupIds_inv in Hids as [H20 _].
    pose proof (List.filter_length_le (keepMeal f) clean). lia.
  - destruct (run_result_trace api f ings s) as (tail & -> & Htail & _).
    eexists. split; [reflexivity|].
    rewrite !List.filter_app, Htail, !length_app. simpl.
    pose proof (fetchTrace_lookups api ings). lia.
  - exact Hrec.
  - intros Hfaith meal Hmeal ing Hing.
    destruct (Hrec meal Hmeal) as (id & Hlook & Hid).
    destruct (Hid ing Hing) as (S & HS & Hin). exists S. split; [exact HS|].
    unfold lookup_record in Hlook.
    destruct (lookup_response api id) as [|d] eqn:E; [discriminate|].
    simpl in Hlook. injection Hlook as Hfirst.
    now rewrite (Hfaith id d meal E Hfirst).
Qed.

(** C3: on a non-empty ingredient list, when the request of some
    ingredient is rejected the run ends with no recipe, no selection, and
    the generic message as its one error report; no lookup is issued. *)
Theorem run_candidate_failure
  (api : Upstream) (f : Filters) (ings : list string) (s : Session) :
  ings <> [] ->
  (exists ing, In ing ings /\ filter_response api ing = Rejected) ->
  let s' := final (run api f ings) s in
  error s' = generic_error
  /\ meals s' = []
  /\ selectedMeal s' = None
  /\ loading s' = false
  /\ exists new,
       trace s' = (trace s ++ new)%list
       /\ List.filter is_error_report new = [SetError generic_error]
       /\ List.filter is_lookup new = [].
Proof.
  intros Hne Hrej s'. subst s'. rewrite (final_run_nonempty _ _ _ _ Hne).
  pose proof (lookupIds_rejected api ings Hrej) as Hids.
  unfold run_result.
  assert (Hfd : fetchedDetails api ings = None)
    by (unfold fetchedDetails; now rewrite Hids).
  rewrite Hfd. cbn [error meals selectedMeal loading trace]. repeat split.
  eexists. split; [reflexivity|].
  rewrite !List.filter_app, filter_is_error_report_fetches.
  split; [reflexivity|].
  rewrite (fetchTrace_no_ids _ _ Hids), filter_is_lookup_filters. reflexivity.
Qed.

(** C4, as the code has it: in the detail step an identifier whose
    answer holds no record is dropped and the run goes on with the
    records found for the others; a rejected lookup request ends the run
    like a rejected candidate request, with the generic error and no
    recipe. *)
Theorem run_lookup_failures
  (api : Upstream) (f : Filters) (ings : list string) (ids : list JsVal)
  (s : Session) :
  ings <> [] ->
  lookupIds api ings = Some ids ->
  let s' := final (run api f ings) s in
  ((forall id, In id ids -> lookup_response api id <> Rejected) ->
   error s' = ""
   /\ meals s' = List.filter (keepMeal f) (omap (found_record api) ids))
  /\ ((exists id, In id ids /\ lookup_response api id = Rejected) ->
      error s' = generic_error /\ meals s' = [] /\ selectedMeal s' = None).
Proof.
  intros Hne Hids s'. subst s'. rewrite (final_run_nonempty _ _ _ _ Hne).
  unfold run_result. split.
  - intros Hok. rewrite (fetchedDetails_tolerant _ _ _ Hids Hok). now simpl.
  - intros Hrej. rewrite (fetchedDetails_fatal _ _ _ Hids Hrej). now simpl.
Qed.

Lemma keepMeal_no_filters (f : Filters) (meal : JsObj) :
  cuisines f = [] -> diet f = [] -> mealTimes f = [] -> (70 <= cookTime f)%Z ->
  keepMeal f meal = true.
Proof.
  intros Hc Hd Hm Ht. unfold keepMeal. cbv zeta. rewrite Hc, Hd, Hm.
  generalize (estimateCookTime (Some meal)). intros minutes.
  apply Z.leb_le in Ht. rewrite Ht, orb_true_r. reflexivity.
Qed.

(** C5: with no cuisine, diet or meal-time chosen and a time limit of 70
    or more, the filter keeps every record: the result of a run is the
    list of fetched records. *)
Theorem run_no_filters
  (api : Upstream) (f : Filters) (ings : list string) (clean : list JsObj)
  (s : Session) :
  cuisines f = [] -> diet f = [] -> mealTimes f = [] -> (70 <= cookTime f)%Z ->
  (forall meal, keepMeal f meal = true)
  /\ List.filter (keepMeal f) clean = clean
  /\ (ings <> [] -> fetchedDetails api ings = Some clean ->
      meals (final (run api f ings) s) = clean
      /\ error (final (run api f ings) s) = "").
Proof.
  intros Hc Hd Hm Ht.
  assert (Hall : forall meal, keepMeal f meal = true)
    by (intros meal; now apply keepMeal_no_filters).
  assert (Hid : List.filter (keepMeal f) clean = clean).
  { clear -Hall. induction clean as [|m l IH]; simpl; [reflexivity|].
    now rewrite Hall, IH. }
  split; [exact Hall|]. split; [exact Hid|].
  intros Hne Hfd. rewrite (final_run_nonempty _ _ _ _ Hne).
  unfold run_result. rewrite Hfd. simpl. now rewrite Hid.
Qed.

(** C8: on an empty ingredient list the run returns at once: no recipe,
    no selection, no error, and no request. *)
Theorem run_no_ingredients (api : Upstream) (f : Filters) (s : Session) :
  let s' := final (run api f []) s in
  fst (run api f [] s) = Returned tt
  /\ meals s' = []
  /\ selectedMeal s' = None
  /\ error s' = ""
  /\ loading s' = loading s
  /\ exists new,
       trace s' = (trace s ++ new)%list
       /\ List.filter is_fetch new = []
       /\ List.filter is_error_report new = [].
Proof.
  intros s'. subst s'. unfold final. rewrite run_empty. simpl.
  repeat split. eexists. split; [reflexivity|]. split; reflexivity.
Qed.

(** C10: no record passes both the "Veg" and the "Non-Veg" label: "Veg"
    asks for [isVeg], "Non-Veg" for its negation (and no drink). *)
Theorem veg_nonveg_exclusive (meal : JsObj) :
  dietLabelOk meal "Veg" = isVeg meal
  /\ dietLabelOk meal "Non-Veg" = negb (isVeg meal) && negb (isDrink meal)
  /\ dietLabelOk meal "Veg" && dietLabelOk meal "Non-Veg" = false.
Proof.
  unfold dietLabelOk.
  generalize (isVeg meal) (isDrink meal) (isSea meal). intros v d se.
  simpl. destruct v, d, se; repeat split.
Qed.

(* ================================================================= *)
(** ** Favourites *)

Lemma same_id_spec (meal : JsObj) (x : Favourite) :
  same_id meal x = true <-> idMeal x = get meal "idMeal".
Proof. unfold same_id. apply bool_decide_eq_true. Qed.

Lemma same_id_favouriteOf (meal : JsObj) : same_id meal (favouriteOf meal) = true.
Proof. now apply same_id_spec. Qed.

Lemma find_same_id_None (meal : JsObj) (f : list Favourite) :
  List.find (same_id meal) f = None
  <-> ~ exists x, In x f /\ idMeal x = get meal "idMeal".
Proof.
  split.
  - intros H (x & Hx & E). apply same_id_spec in E.
    pose proof (find_none _ _ H x Hx). congruence.
  - intros H. destruct (List.find (same_id meal) f) as [x|] eqn:E; [|reflexivity].
    apply find_some in E as [Hx E]. apply same_id_spec in E.
    exfalso. apply H. eauto.
Qed.

Lemma toggleFavourite_absent (meal : JsObj) (f : list Favourite) :
  (~ exists x, In x f /\ idMeal x = get meal "idMeal") ->
  toggleFavourite meal f = (f ++ [favouriteOf meal])%list.
Proof.
  intros H. apply find_same_id_None in H. unfold toggleFavourite. now rewrite H.
Qed.

Lemma toggleFavourite_present (meal : JsObj) (f : list Favourite) :
  (exists x, In x f /\ idMeal x = get meal "idMeal") ->
  toggleFavourite meal f = List.filter (fun x => negb (same_id meal x)) f.
Proof.
  intros H. unfold toggleFavourite.
  destruct (List.find (same_id meal) f) eqn:E; [reflexivity|].
  apply find_same_id_None in E. contradiction.
Qed.

Lemma filter_other_ids_absent (meal : JsObj) (f : list Favourite) :
  ~ exists x, In x (List.filter (fun x => negb (same_id meal x)) f)
              /\ idMeal x = get meal "idMeal".
Proof.
  intros (x & Hx & E). apply filter_In in Hx as [_ Hx].
  apply same_id_spec in E. rewrite E in Hx. discriminate.
Qed.

Lemma filter_other_ids_id (meal : JsObj) (f : list Favourite) :
  (~ exists x, In x f /\ idMeal x = get meal "idMeal") ->
  List.filter (fun x => negb (same_id meal x)) f = f.
Proof.
  intros H. induction f as [|x f IH]; simpl; [reflexivity|].
  destruct (same_id meal x) eqn:E; simpl.
  - apply same_id_spec in E. exfalso. apply H. exists x. simpl. auto.
  - f_equal. apply IH. intros (y & Hy & Ey). apply H. exists y. simpl. auto.
Qed.

(** Two toggles when the recipe was not a favourite. *)
Lemma toggle_twice_absent (meal : JsObj) (f : list Favourite) :
  (~ exists x, In x f /\ idMeal x = get meal "idMeal") ->
  toggleFavourite meal (toggleFavourite meal f) = f.
Proof.
  intros H. rewrite (toggleFavourite_absent _ _ H).
  rewrite toggleFavourite_present.
  - rewrite List.filter_app. simpl. rewrite same_id_favouriteOf. simpl.
    rewrite app_nil_r. now apply filter_other_ids_id.
  - exists (favouriteOf meal). split; [|reflexivity].
    apply in_or_app. right. now left.
Qed.

(** Two toggles when the recipe was a favourite: its entries are
    replaced by one entry at the end. *)
Lemma toggle_twice_present (meal : JsObj) (f : list Favourite) :
  (exists x, In x f /\ idMeal x = get meal "idMeal") ->
  toggleFavourite meal (toggleFavourite meal f)
  = (List.filter (fun x => negb (same_id meal x)) f ++ [favouriteOf meal])%list.
Proof.
  intros H. rewrite (toggleFavourite_present _ _ H).
  apply toggleFavourite_absent, filter_other_ids_absent.
Qed.

Lemma has_id_dec (meal : JsObj) (f : list Favourite) :
  (exists x, In x f /\ idMeal x = get meal "idMeal")
  \/ ~ (exists x, In x f /\ idMeal x = get meal "idMeal").
Proof.
  destruct (List.find (same_id meal) f) as [x|] eqn:E.
  - left. apply find_some in E as [Hx E]. apply same_id_spec in E. eauto.
  - right. now apply find_same_id_None.
Qed.

(** C7: a toggle appends the (id, name) pair of the recipe when no entry
    has its id and removes the entries with that id otherwise; toggling
    twice with the same recipe restores the favourite identifiers, the
    very list when the recipe was not a favourite, and the set of pairs
    when the entries stored under the recipe's id are the recipe's own
    pair. *)
Theorem toggleFavourite_twice (meal : JsObj) (f : list Favourite) :
  let present := exists x, In x f /\ idMeal x = get meal "idMeal" in
  let twice := toggleFavourite meal (toggleFavourite meal f) in
  (~ present -> toggleFavourite meal f = (f ++ [favouriteOf meal])%list)
  /\ (present ->
      toggleFavourite meal f = List.filter (fun x => negb (same_id meal x)) f)
  /\ (forall i, In i (map idMeal twice) <-> In i (map idMeal f))
  /\ (~ present -> twice = f)
  /\ ((forall x, In x f -> idMeal x = get meal "idMeal" -> x = favouriteOf meal) ->
      forall x, In x twice <-> In x f).
Proof.
  intros present twice.
  split; [apply toggleFavourite_absent|].
  split; [apply toggleFavourite_present|].
  assert (Hpairs : forall x, In x twice <->
            (present -> (In x f /\ idMeal x <> get meal "idMeal") \/ x = favouriteOf meal)
            /\ (~ present -> In x f)).
  { intros x. subst twice. destruct (has_id_dec meal f) as [H|H].
    - rewrite (toggle_twice_present _ _ H). rewrite in_app_iff, filter_In. simpl.
      rewrite negb_true_iff, <- not_true_iff_false, same_id_spec.
      split.
      + intros G. split; [|contradiction]. intros _.
        destruct G as [G|[G|[]]]; [left; exact G|right; now symmetry].
      + intros [G _]. destruct (G H) as [G'|G']; [left; exact G'|right; left; now symmetry].
    - rewrite (toggle_twice_absent _ _ H). split; [|tauto].
      intros G. split; [contradiction|auto]. }
  split; [|split].
  - intros i. rewrite !in_map_iff. split.
    + intros (x & <- & Hx). apply Hpairs in Hx as [Hp Ha].
      destruct (has_id_dec meal f) as [H|H].
      * destruct (Hp H) as [[Hx _]| ->]; [eauto|].
        destruct H as (y & Hy & E). exists y. now rewrite E.
      * specialize (Ha H). eauto.
    + intros (x & <- & Hx). destruct (has_id_dec meal f) as [H|H].
      * destruct (decide (idMeal x = get meal "idMeal")) as [E|N].
        -- exists (favouriteOf meal). split; [now rewrite E|].
           apply Hpairs. split; [auto|contradiction].
        -- exists x. split; [reflexivity|]. apply Hpairs. split; [auto|contradiction].
      * exists x. split; [reflexivity|]. apply Hpairs. split; [contradiction|auto].
  - intros H. now apply toggle_twice_absent.
  - intros Hown x. rewrite Hpairs. split.
    + intros [Hp Ha]. destruct (has_id_dec meal f) as [H|H]; [|auto].
      destruct (Hp H) as [[Hx _]| ->]; [exact Hx|].
      destruct H as (y & Hy & E). now rewrite <- (Hown y Hy E).
    + intros Hx. split; [|auto]. intros _.
      destruct (decide (idMeal x = get meal "idMeal")) as [E|N]; [right|left]; auto.
Qed.

(* ================================================================= *)
(** ** The properties on sample data *)

(** The character count of the instructions does not order estimates:
    only the count of long pieces does. *)
Example estimate_ignores_characters :
  estimateCookTime (Some {[ "strInstructions" := JStr "abcdefg" ]}) = 12%Z
  /\ estimateCookTime (Some {[ "strInstructions" := JStr "a.b.c.d.e" ]}) = 10%Z.
Proof. split; vm_compute; reflexivity. Qed.

Example intersection_scenario :
  intersect_all [[JStr "A"; JStr "B"; JStr "C"]; [JStr "B"; JStr "C"; JStr "D"]]
  = Some [JStr "B"; JStr "C"].
Proof. vm_compute. reflexivity. Qed.

Example sample_run :
  map (fun m => get m "idMeal")
    (meals (final (run (sample_api None) no_filters ["chicken"; "garlic"])
              fresh_session))
  = [JStr "52772"; JStr "52773"].
Proof. vm_compute. reflexivity. Qed.

Lemma sample_api_faithful : lookup_faithful (sample_api None).
Proof.
  intros id d m Hresp Hfirst. unfold sample_api in Hresp.
  cbn [lookup_response] in Hresp.
  rewrite bool_decide_eq_false_2 in Hresp by discriminate.
  destruct (bool_decide (id = JStr "52772")) eqn:E1.
  { apply bool_decide_eq_true in E1. subst id. injection Hresp as <-.
    cbn [first_meal] in Hfirst. injection Hfirst as <-.
    vm_compute. reflexivity. }
  destruct (bool_decide (id = JStr "52773")) eqn:E2.
  { apply bool_decide_eq_true in E2. subst id. injection Hresp as <-.
    cbn [first_meal] in Hfirst. injection Hfirst as <-.
    vm_compute. reflexivity. }
  injection Hresp as <-. discriminate.
Qed.

Lemma unit_compare_le (a b : string) :
  (unit_compare a b <= 0)%Z <-> String.le a b.
Proof.
  unfold unit_compare, String.le.
  destruct (String.leb a b), (String.leb b a); simpl; split; intros H;
    try lia; try exact I; try contradiction.
Qed.

Lemma unit_compare_consistent : consistent_comparator unit_compare.
Proof.
  split.
  - intros a b. rewrite !unit_compare_le. apply (total String.le).
  - intros a b c. rewrite !unit_compare_le. apply transitivity.
Qed.

Lemma run_within_intersection_witness :
  lookup_faithful (sample_api None)
  /\ forall meal,
       In meal (meals (final (run (sample_api None) no_filters
                                ["chicken"; "garlic"]) fresh_session)) ->
       forall ing, In ing ["chicken"; "garlic"] ->
         exists S, candidateSet (sample_api None) ing = Some S
                   /\ get meal "idMeal" ∈ S.
Proof.
  assert (Hne : ["chicken"; "garlic"] <> []) by discriminate.
  split; [exact sample_api_faithful|].
  exact (proj2 (proj2 (proj2
           (run_within_intersection (sample_api None) no_filters
              ["chicken"; "garlic"] fresh_session Hne)))
           sample_api_faithful).
Defined.

Lemma run_candidate_failure_witness :
  error (final (run (sample_api None) no_filters ["chicken"; "saffron"])
           fresh_session) = generic_error.
Proof.
  assert (Hne : ["chicken"; "saffron"] <> []) by discriminate.
  assert (Hrej : exists ing, In ing ["chicken"; "saffron"]
                             /\ filter_response (sample_api None) ing = Rejected).
  { exists "saffron". split; [simpl; auto|reflexivity]. }
  exact (proj1 (run_candidate_failure (sample_api None) no_filters
                  ["chicken"; "saffron"] fresh_session Hne Hrej)).
Defined.

Lemma run_lookup_failures_witness :
  meals (final (run (sample_api None) no_filters ["chicken"]) fresh_session)
  = List.filter (keepMeal no_filters)
      (omap (found_record (sample_api None))
         [JStr "52772"; JStr "52773"; JStr "52774"])
  /\ error (final (run (sample_api (Some "52773")) no_filters ["chicken"])
              fresh_session) = generic_error.
Proof.
  assert (Hne : ["chicken"] <> []) by discriminate.
  split.
  - assert (Hids : lookupIds (sample_api None) ["chicken"]
                   = Some [JStr "52772"; JStr "52773"; JStr "52774"])
      by (vm_compute; reflexivity).
    assert (Hok : forall id, In id [JStr "52772"; JStr "52773"; JStr "52774"] ->
                    lookup_response (sample_api None) id <> Rejected).
    { intros id [<-|[<-|[<-|[]]]]; unfold sample_api; cbn [lookup_response];
        repeat case_bool_decide; discriminate. }
    exact (proj2 (proj1 (run_lookup_failures (sample_api None) no_filters
                           ["chicken"] _ fresh_session Hne Hids) Hok)).
  - assert (Hids : lookupIds (sample_api (Some "52773")) ["chicken"]
                   = Some [JStr "52772"; JStr "52773"; JStr "52774"])
      by (vm_compute; reflexivity).
    assert (Hrej : exists id, In id [JStr "52772"; JStr "52773"; JStr "52774"]
                     /\ lookup_response (sample_api (Some "52773")) id = Rejected).
    { exists (JStr "52773"). split; [simpl; auto|reflexivity]. }
    exact (proj1 (proj2 (run_lookup_failures (sample_api (Some "52773")) no_filters
                           ["chicken"] _ fresh_session Hne Hids) Hrej)).
Defined.

(** C4 as stated fails: with the lookup of one identifier rejected, the
    run ends with the generic error and no recipe, although the other
    identifiers have records. *)
Lemma run_lookup_rejected_counterexample :
  lookup_response (sample_api (Some "52773")) (JStr "52773") = Rejected
  /\ found_record (sample_api (Some "52773")) (JStr "52772") = Some teriyaki
  /\ error (final (run (sample_api (Some "52773")) no_filters ["chicken"])
              fresh_session) = generic_error
  /\ meals (final (run (sample_api (Some "52773")) no_filters ["chicken"])
              fresh_session) = []
  /\ ~ lookup_failure_tolerated (sample_api (Some "52773")) no_filters
         ["chicken"] fresh_session.
Proof.
  split; [vm_compute; reflexivity|].
  split; [vm_compute; reflexivity|].
  split; [vm_compute; reflexivity|].
  split; [vm_compute; reflexivity|].
  intros H.
  destruct (H [JStr "52772"; JStr "52773"; JStr "52774"]) as [Herr _].
  - vm_compute. reflexivity.
  - vm_compute in Herr. discriminate.
Qed.

Lemma run_no_filters_witness :
  meals (final (run (sample_api None) no_filters ["chicken"; "garlic"])
           fresh_session)
  = [teriyaki; garlic_soup].
Proof.
  assert (Hne : ["chicken"; "garlic"] <> []) by discriminate.
  assert (Hfd : fetchedDetails (sample_api None) ["chicken"; "garlic"]
                = Some [teriyaki; garlic_soup]) by (vm_compute; reflexivity).
  assert (H70 : (70 <= cookTime no_filters)%Z) by (simpl; lia).
  exact (proj1 (proj2 (proj2
           (run_no_filters (sample_api None) no_filters ["chicken"; "garlic"]
              [teriyaki; garlic_soup] fresh_session
              eq_refl eq_refl eq_refl H70)) Hne Hfd)).
Defined.

Lemma estimateCookTime_monotone_witness :
  (estimateCookTime (Some garlic_soup)
   <= estimateCookTime
        (Some (<[slotKey "strIngredient" 2 := JStr "salt"]> garlic_soup)))%Z.
Proof.
  assert (Hname : trim "salt" <> "") by (vm_compute; discriminate).
  exact (proj1 (proj2
           (estimateCookTime_monotone None None garlic_soup 2 "salt" "") )
           Hname).
Defined.

(** C6 as stated fails: the estimate is not monotone in the length of
    the instruction text.  With a period put into "abcdefg" the text is
    longer and the estimate drops from 12 to 10. *)
Lemma estimate_length_counterexample :
  estimateCookTime (Some {[ "strInstructions" := JStr "abcdefg" ]}) = 12%Z
  /\ estimateCookTime
       (Some (<["strInstructions" := JStr ("abc" +:+ "." +:+ "defg")]>
                {[ "strInstructions" := JStr "abcdefg" ]})) = 10%Z
  /\ String.length "abcdefg" < String.length ("abc" +:+ "." +:+ "defg")
  /\ ~ estimate_monotone_in_length
  /\ ~ estimate_monotone_under_insertion.
Proof.
  split; [vm_compute; reflexivity|].
  split; [vm_compute; reflexivity|].
  split; [vm_compute; lia|].
  split.
  - intros H.
    specialize (H {[ "strInstructions" := JStr "abcdefg" ]} "abc.defg").
    assert (L : String.length
                  (instructions (Some {[ "strInstructions" := JStr "abcdefg" ]}))
                <= String.length "abc.defg") by (vm_compute; lia).
    specialize (H L). vm_compute in H. apply H. reflexivity.
  - intros H.
    specialize (H {[ "strInstructions" := JStr "abcdefg" ]} "abc" "." "defg").
    assert (E : instructions (Some {[ "strInstructions" := JStr "abcdefg" ]})
                = "abc" +:+ "defg") by (vm_compute; reflexivity).
    specialize (H E). vm_compute in H. apply H. reflexivity.
Qed.

Lemma toggleFavourite_twice_witness :
  (forall x,
     In x [favouriteOf teriyaki; favouriteOf garlic_soup] ->
     idMeal x = get teriyaki "idMeal" -> x = favouriteOf teriyaki)
  /\ forall x,
       In x (toggleFavourite teriyaki
               (toggleFavourite teriyaki
                  [favouriteOf teriyaki; favouriteOf garlic_soup]))
       <-> In x [favouriteOf teriyaki; favouriteOf garlic_soup].
Proof.
  assert (Hown : forall x,
            In x [favouriteOf teriyaki; favouriteOf garlic_soup] ->
            idMeal x = get teriyaki "idMeal" -> x = favouriteOf teriyaki).
  { intros x [<-|[<-|[]]]; [reflexivity|]. vm_compute. discriminate. }
  split; [exact Hown|].
  exact (proj2 (proj2 (proj2 (proj2
           (toggleFavourite_twice teriyaki
              [favouriteOf teriyaki; favouriteOf garlic_soup])))) Hown).
Defined.

Lemma suggestions_spec_witness :
  In "Chicken" (suggestions "cHICK" ["Spinach"; "Chicken"] ["Spinach"])
  /\ StronglySorted (cmp_le unit_compare)
       (suggestions "cHICK"
          (loadIngredients unit_compare
             (Fulfilled (Some [Some {[ "strIngredient" := JStr "Spinach" ]};
                               None;
                               Some {[ "strIngredient" := JStr "Chicken" ]};
                               Some {[ "strIngredient" := JNull ]}])))
          ["Spinach"]).
Proof.
  assert (Hq : "cHICK" <> "") by discriminate.
  split.
  - destruct (proj1 (proj2
                (suggestions_spec unit_compare Rejected "cHICK"
                   ["Spinach"; "Chicken"] ["Spinach"])) Hq)
      as (keep & Hkeep & ->).
    assert (Hc : keep "Chicken" = true).
    { apply Hkeep. split.
      - exists [], (chars "Chick"), (chars "en"). split; [reflexivity|].
        repeat constructor.
      - simpl. intros [H|[]]. discriminate. }
    assert (Hs : keep "Spinach" = false).
    { apply not_true_iff_false. intros H. apply Hkeep in H as [_ H].
      apply H. simpl. now left. }
    simpl. rewrite Hs, Hc. simpl. now left.
  - exact (proj2 (proj2 (proj2 (proj2
             (suggestions_spec unit_compare _ "cHICK" [] ["Spinach"])))
             unit_compare_consistent)).
Defined.

(* ================================================================= *)
(** ** [formatMinutes] *)

(** X1: the label shown for an estimate is never the dash nor
    "< 10 mins"; it is "> 1 hr" exactly when the estimate exceeds 60 and
    "10-20 mins" exactly when it is below 20. *)
Theorem formatMinutes_estimate (meal : option JsObj) :
  let l := formatMinutes (Some (estimateCookTime meal)) in
  l <> LabelNone /\ l <> LabelUnder10
  /\ (l = LabelOverHour <-> (60 < estimateCookTime meal)%Z)
  /\ (l = Label10 <-> (estimateCookTime meal < 20)%Z).
Proof.
  intros l. subst l.
  assert (H : (10 <= estimateCookTime meal <= 120)%Z)
    by (rewrite estimateCookTime_eq; lia).
  unfold formatMinutes.
  repeat match goal with
         | |- context [(?a =? ?b)%Z] => destruct (Z.eqb_spec a b)
         | |- context [(?a <? ?b)%Z] => destruct (Z.ltb_spec a b)
         | |- context [(?a <=? ?b)%Z] => destruct (Z.leb_spec a b)
         end;
    repeat split; intros; try discriminate; try lia.
Qed.

(* ================================================================= *)
(** ** Trimmed names *)

Lemma skip_white_clean (l : list ascii) : clean_head (skip_white l).
Proof.
  induction l as [|c l IH]; simpl; [exact I|].
  destruct (is_white c) eqn:E; [exact IH|exact E].
Qed.

Lemma skip_white_id (l : list ascii) : clean_head l -> skip_white l = l.
Proof. destruct l as [|c l]; simpl; [reflexivity|]. now intros ->. Qed.

Lemma skip_white_suffix (l : list ascii) :
  exists p, l = (p ++ skip_white l)%list.
Proof.
  induction l as [|c l [p IH]]; simpl; [now exists []|].
  destruct (is_white c).
  - exists (c :: p). simpl. now rewrite <- IH.
  - now exists [].
Qed.

Lemma clean_head_prefix (a b : list ascii) : clean_head (a ++ b) -> clean_head a.
Proof. destruct a; simpl; auto. Qed.

Lemma trim_chars_idem (l : list ascii) : trim_chars (trim_chars l) = trim_chars l.
Proof.
  unfold trim_chars.
  set (z := skip_white l). set (y := skip_white (rev z)).
  assert (Hy : clean_head y) by apply skip_white_clean.
  assert (Hr : clean_head (rev y)).
  { destruct (skip_white_suffix (rev z)) as [p Hp]. fold y in Hp.
    apply (f_equal (@rev _)) in Hp. rewrite rev_involutive, rev_app_distr in Hp.
    apply (clean_head_prefix _ (rev p)). rewrite <- Hp. apply skip_white_clean. }
  rewrite (skip_white_id _ Hr), rev_involutive, (skip_white_id _ Hy).
  reflexivity.
Qed.

Lemma trim_idem (s : string) : trim (trim s) = trim s.
Proof. unfold trim. now rewrite chars_text, trim_chars_idem. Qed.

(* ================================================================= *)
(** ** What [extractIngredients] returns *)

Lemma extract_from_names meal i todo pairs :
  map ingredient (extract_from meal i todo pairs)
  = (map ingredient pairs
     ++ map (fun k => trim (or_empty (get meal (slotKey "strIngredient" k))))
          (List.filter (populated meal) (seq i todo)))%list.
Proof.
  revert i pairs. induction todo as [|n IH]; intros i pairs; simpl.
  - now rewrite app_nil_r.
  - rewrite IH. unfold populated at 2.
    destruct (get meal (slotKey "strIngredient" i)) as [| |s] eqn:G; simpl;
      try reflexivity.
    destruct (String.eqb s "") eqn:E; simpl.
    + apply String.eqb_eq in E. subst s. rewrite trim_empty. reflexivity.
    + destruct (String.eqb (trim s) ""); simpl; [reflexivity|].
      rewrite map_app, G. simpl. now rewrite <- app_assoc.
Qed.

Lemma extractIngredients_names (meal : JsObj) :
  map ingredient (extractIngredients (Some meal)) = populatedNames meal.
Proof. unfold extractIngredients, populatedNames. now rewrite extract_from_names. Qed.

Lemma extract_from_trimmed meal i todo pairs :
  Forall (fun p => ingredient p <> "" /\ trim (ingredient p) = ingredient p
                   /\ trim (measure p) = measure p) pairs ->
  Forall (fun p => ingredient p <> "" /\ trim (ingredient p) = ingredient p
                   /\ trim (measure p) = measure p)
    (extract_from meal i todo pairs).
Proof.
  revert i pairs. induction todo as [|n IH]; intros i pairs Hp; simpl; [exact Hp|].
  apply IH.
  destruct (get meal (slotKey "strIngredient" i)) as [| |s]; try exact Hp.
  destruct (String.eqb s "") eqn:E1; simpl; [exact Hp|].
  destruct (String.eqb (trim s) "") eqn:E2; simpl; [exact Hp|].
  apply Forall_app. split; [exact Hp|]. constructor; [|constructor].
  simpl. apply String.eqb_neq in E2. repeat split; auto using trim_idem.
Qed.

(** X2: [extractIngredients] returns at most 20 pairs, one for each
    populated slot in slot order; every ingredient name in it is trimmed
    and not empty, and every measure is trimmed. *)
Theorem extractIngredients_pairs (meal : JsObj) :
  List.length (extractIngredients (Some meal)) <= 20
  /\ map ingredient (extractIngredients (Some meal)) = populatedNames meal
  /\ Forall (fun p => ingredient p <> "" /\ trim (ingredient p) = ingredient p
                      /\ trim (measure p) = measure p)
       (extractIngredients (Some meal)).
Proof.
  split; [|split].
  - rewrite extractIngredients_length. unfold ingredientCount.
    pose proof (List.filter_length_le (populated meal) (seq 1 20)).
    rewrite length_seq in H. exact H.
  - apply extractIngredients_names.
  - apply extract_from_trimmed. constructor.
Qed.

Lemma extract_from_ext (m m' : JsObj) i todo pairs :
  (forall k, i <= k < i + todo ->
     get m (slotKey "strIngredient" k) = get m' (slotKey "strIngredient" k)
     /\ get m (slotKey "strMeasure" k) = get m' (slotKey "strMeasure" k)) ->
  extract_from m i todo pairs = extract_from m' i todo pairs.
Proof.
  revert i pairs. induction todo as [|n IH]; intros i pairs H; simpl; [reflexivity|].
  destruct (H i) as [-> ->]; [lia|]. apply IH. intros k Hk. apply H. lia.
Qed.

Lemma slotKey_measure_ingredient i j :
  slotKey "strIngredient" j <> slotKey "strMeasure" i.
Proof. unfold slotKey. simpl. discriminate. Qed.

(** X3: the loop reads slots 1 to 20 only: setting the ingredient name of
    slot 0 or of a slot beyond 20 changes neither the pairs nor the
    estimate. *)
Theorem extractIngredients_slot_bounds (meal : JsObj) (j : nat) (v : JsVal) :
  ~ (1 <= j <= 20) ->
  extractIngredients (Some (<[slotKey "strIngredient" j := v]> meal))
  = extractIngredients (Some meal)
  /\ estimateCookTime (Some (<[slotKey "strIngredient" j := v]> meal))
     = estimateCookTime (Some meal).
Proof.
  intros Hj.
  assert (E : extractIngredients (Some (<[slotKey "strIngredient" j := v]> meal))
              = extractIngredients (Some meal)).
  { unfold extractIngredients. apply extract_from_ext. intros k Hk.
    rewrite !get_insert. split.
    - rewrite decide_False; [reflexivity|]. intros H. apply slotKey_inj in H. lia.
    - rewrite decide_False; [reflexivity|]. apply slotKey_measure_ingredient. }
  split; [exact E|].
  unfold estimateCookTime. rewrite E. unfold get_opt.
  rewrite get_insert, decide_False; [reflexivity|]. apply slotKey_not_instructions.
Qed.

(* ================================================================= *)
(** ** Keyword tests *)

Lemma lower_char_idem (c : ascii) : lower_char (lower_char c) = lower_char c.
Proof. destruct c as [[] [] [] [] [] [] [] []]; reflexivity. Qed.

Lemma toLowerCase_idem (s : string) : toLowerCase (toLowerCase s) = toLowerCase s.
Proof.
  unfold toLowerCase. rewrite chars_text, map_map. f_equal.
  apply map_ext. intros c. apply lower_char_idem.
Qed.

Lemma str_app_assoc (a b c : string) : (a +:+ b) +:+ c = a +:+ (b +:+ c).
Proof.
  rewrite <- (text_chars ((a +:+ b) +:+ c)), <- (text_chars (a +:+ (b +:+ c))).
  now rewrite !chars_app, app_assoc.
Qed.

Lemma str_app_empty_r (a : string) : a +:+ "" = a.
Proof.
  rewrite <- (text_chars (a +:+ "")), chars_app. change (chars "") with (@nil ascii).
  rewrite app_nil_r. apply text_chars.
Qed.

Lemma ci_substring_lower (w x : string) :
  ci_substring w x -> ci_substring w (toLowerCase x).
Proof.
  intros (pre & mid & post & -> & H).
  exists (toLowerCase pre), (toLowerCase mid), (toLowerCase post).
  rewrite !toLowerCase_app, toLowerCase_idem. auto.
Qed.

Lemma ci_substring_inside (w x p q : string) :
  ci_substring w x -> ci_substring w (p +:+ x +:+ q).
Proof.
  intros (pre & mid & post & -> & H).
  exists (p +:+ pre), mid, (post +:+ q). split; [|exact H].
  now rewrite !str_app_assoc.
Qed.

Lemma join_space_In (x : string) (l : list string) :
  In x l -> exists p q, join_space l = p +:+ x +:+ q.
Proof.
  induction l as [|y l IH]; [intros []|].
  intros [->|H].
  - destruct l as [|z l].
    + exists "", "". simpl. now rewrite str_app_empty_r.
    + exists "", (" " +:+ join_space (z :: l)). reflexivity.
  - destruct (IH H) as (p & q & E). destruct l as [|z l]; [destruct H|].
    exists (y +:+ " " +:+ p), q.
    change (join_space (y :: z :: l)) with (y +:+ " " +:+ join_space (z :: l)).
    rewrite E. now rewrite !str_app_assoc.
Qed.

(** [/w1|w2|.../i.test(s)]: some word occurs in [s] up to case. *)
Lemma test_i_spec (words : list string) (s : string) :
  test_i words s = true <-> exists w, In w words /\ ci_substring w s.
Proof.
  unfold test_i. rewrite existsb_exists.
  split; intros (w & Hw & H); exists w; split; auto; now apply includes_lower_spec.
Qed.

Lemma ci_substring_nonempty (w x : string) :
  w <> "" -> ci_substring w x -> x <> "".
Proof.
  intros Hw (pre & mid & post & -> & H) E.
  destruct pre; [|discriminate]. destruct mid; [|discriminate].
  apply Hw. destruct w; [reflexivity|discriminate].
Qed.

Lemma populatedNames_In (meal : JsObj) (i : nat) (s : string) :
  1 <= i <= 20 ->
  get meal (slotKey "strIngredient" i) = JStr s ->
  trim s <> "" ->
  In (trim s) (populatedNames meal).
Proof.
  intros Hi Hget Hs. unfold populatedNames. apply in_map_iff. exists i.
  rewrite Hget. split; [reflexivity|]. apply filter_In. split.
  - apply in_seq. lia.
  - unfold populated. rewrite Hget. now apply negb_true_iff, String.eqb_neq.
Qed.

(** A keyword found in the name of a populated slot is found in the text
    on which the diet tests run. *)
Lemma keyword_in_ingredients (meal : JsObj) (i : nat) (s w : string) :
  1 <= i <= 20 ->
  get meal (slotKey "strIngredient" i) = JStr s ->
  w <> "" -> ci_substring w (trim s) ->
  ci_substring w (join_space (lowerIngredients meal)).
Proof.
  intros Hi Hget Hw Hsub.
  assert (Hin : In (toLowerCase (trim s)) (lowerIngredients meal)).
  { unfold lowerIngredients.
    rewrite <- (map_map ingredient toLowerCase), extractIngredients_names.
    apply in_map. apply (populatedNames_In meal i s Hi Hget).
    exact (ci_substring_nonempty w (trim s) Hw Hsub). }
  destruct (join_space_In _ _ Hin) as (p & q & ->).
  exact (ci_substring_inside w _ p q (ci_substring_lower w _ Hsub)).
Qed.

Lemma meat_words_nonempty (w : string) : In w meat_words -> w <> "".
Proof. unfold meat_words. simpl. intuition (subst; discriminate). Qed.

(** X4: a record with a meat or sea-food keyword (up to case) in the name
    of one of its ingredient slots 1 to 20 is not vegetarian: "Veg"
    rejects it. *)
Theorem isVeg_keyword (meal : JsObj) (i : nat) (s w : string) :
  1 <= i <= 20 ->
  get meal (slotKey "strIngredient" i) = JStr s ->
  In w meat_words ->
  ci_substring w (trim s) ->
  isVeg meal = false /\ dietLabelOk meal "Veg" = false.
Proof.
  intros Hi Hget Hw Hsub.
  assert (Hv : isVeg meal = false).
  { unfold isVeg. apply negb_false_iff, test_i_spec. exists w. split; [exact Hw|].
    apply (keyword_in_ingredients meal i s w); auto using meat_words_nonempty. }
  split; [exact Hv|]. unfold dietLabelOk. rewrite Hv. reflexivity.
Qed.

Lemma sea_words_meat (w : string) : In w sea_words -> In w meat_words.
Proof. unfold sea_words, meat_words. simpl. intuition. Qed.

Lemma test_i_sea_meat (t : string) :
  test_i sea_words t = true -> test_i meat_words t = true.
Proof.
  rewrite !test_i_spec. intros (w & Hw & H). exists w. auto using sea_words_meat.
Qed.

Lemma includes_lower_word (n w : string) :
  toLowerCase w = w ->
  includes (toLowerCase n) w = true <-> ci_substring w n.
Proof. intros H. pose proof (includes_lower_spec n w) as S. now rewrite H in S. Qed.

Lemma seafood_lower : toLowerCase "seafood" = "seafood".
Proof. vm_compute. reflexivity. Qed.

Lemma dietLabelOk_Veg (meal : JsObj) : dietLabelOk meal "Veg" = isVeg meal.
Proof.
  unfold dietLabelOk. generalize (isVeg meal) (isDrink meal) (isSea meal).
  intros v d se. simpl. now destruct v, d, se.
Qed.

Lemma dietLabelOk_Sea (meal : JsObj) : dietLabelOk meal "Sea-food" = isSea meal.
Proof.
  unfold dietLabelOk. generalize (isVeg meal) (isDrink meal) (isSea meal).
  intros v d se. simpl. now destruct v, d, se.
Qed.

Lemma isSea_of_category (meal : JsObj) (c : string) :
  get meal "strCategory" = JStr c -> ci_substring "seafood" c -> isSea meal = true.
Proof.
  intros Hc Hsub. unfold isSea. apply orb_true_iff. right.
  unfold lowerCategory. rewrite Hc.
  now apply (includes_lower_word c "seafood" seafood_lower).
Qed.

Lemma isSea_isVeg_category (meal : JsObj) :
  isVeg meal = true -> isSea meal = true ->
  ci_substring "seafood" (or_empty (get meal "strCategory")).
Proof.
  unfold isSea, isVeg. intros Hv Hs. apply orb_true_iff in Hs as [Hs|Hs].
  - apply test_i_sea_meat in Hs. rewrite Hs in Hv. discriminate Hv.
  - unfold lowerCategory in Hs.
    now apply (includes_lower_word _ "seafood" seafood_lower) in Hs.
Qed.

(** X5: the category decides "Sea-food" on its own: a record whose
    category contains "seafood" up to case passes the "Sea-food" label
    whatever its ingredients; and a record passes both "Veg" and
    "Sea-food" only in that way, since every sea-food keyword is a meat
    keyword. *)
Theorem isSea_category (meal : JsObj) (c : string) :
  (get meal "strCategory" = JStr c -> ci_substring "seafood" c ->
   isSea meal = true /\ dietLabelOk meal "Sea-food" = true)
  /\ (dietLabelOk meal "Veg" = true -> dietLabelOk meal "Sea-food" = true ->
      ci_substring "seafood" (or_empty (get meal "strCategory"))).
Proof.
  rewrite dietLabelOk_Veg, dietLabelOk_Sea. split.
  - intros Hc Hsub. pose proof (isSea_of_category meal c Hc Hsub). auto.
  - apply isSea_isVeg_category.
Qed.

(** X6: no record passes both the "Non-Veg" and the "Drinks" label, and a
    record that passes none of "Veg", "Non-Veg" and "Drinks" does not
    exist: every record passes "Veg", "Non-Veg" or "Drinks". *)
Theorem diet_labels_cover (meal : JsObj) :
  dietLabelOk meal "Non-Veg" && dietLabelOk meal "Drinks" = false
  /\ dietLabelOk meal "Veg" || dietLabelOk meal "Non-Veg"
     || dietLabelOk meal "Drinks" = true.
Proof.
  unfold dietLabelOk.
  generalize (isVeg meal) (isDrink meal) (isSea meal). intros v d se.
  simpl. destruct v, d, se; split; reflexivity.
Qed.

(* ================================================================= *)
(** ** The intersection in closed form *)

Lemma List_filter_sublist {A} (p : A -> bool) (l : list A) :
  List.filter p l `sublist_of` l.
Proof.
  induction l as [|x l IH]; simpl; [constructor|].
  destruct (p x); [now apply sublist_skip|now apply sublist_cons].
Qed.

Lemma List_filter_elem_of {A} (p : A -> bool) (l : list A) (x : A) :
  x ∈ List.filter p l <-> x ∈ l /\ p x = true.
Proof. rewrite !list_elem_of_In. apply filter_In. Qed.

Lemma List_filter_NoDup {A} (p : A -> bool) (l : list A) :
  NoDup l -> NoDup (List.filter p l).
Proof. intros H. exact (sublist_NoDup _ _ H (List_filter_sublist p l)). Qed.

Lemma Set_add_NoDup_id (l acc : list JsVal) :
  NoDup (acc ++ l) ->
  fold_left (fun acc x => if Set_has acc x then acc else acc ++ [x])%list l acc
  = (acc ++ l)%list.
Proof.
  revert acc. induction l as [|y l IH]; intros acc H; simpl.
  - now rewrite app_nil_r.
  - destruct (Set_has acc y) eqn:E.
    + apply Set_has_spec in E. apply NoDup_app in H as (_ & H & _).
      exfalso. apply (H y E). now left.
    + rewrite IH; rewrite <- app_assoc; [reflexivity|exact H].
Qed.

(** Copying a [Set] changes nothing. *)
Lemma Set_new_id (l : list JsVal) : NoDup l -> Set_new l = l.
Proof. intros H. unfold Set_new. now rewrite Set_add_NoDup_id. Qed.

Lemma intersect_fold_closed (rest : list (list JsVal)) (a : list JsVal) :
  NoDup a ->
  fold_left intersect_step rest (Some a)
  = Some (List.filter (fun x => forallb (fun s => Set_has s x) rest) a).
Proof.
  revert a. induction rest as [|s rest IH]; intros a Ha; simpl.
  - f_equal. symmetry. apply forallb_filter_id.
    apply forallb_forall. reflexivity.
  - rewrite Set_new_id by now apply List_filter_NoDup.
    rewrite IH by now apply List_filter_NoDup. f_equal.
    clear. induction a as [|x a IH]; simpl; [reflexivity|].
    destruct (Set_has s x); simpl; [|exact IH].
    destruct (forallb (fun s0 => Set_has s0 x) rest); simpl; now rewrite IH.
Qed.

Lemma intersect_all_closed (s0 : list JsVal) (rest : list (list JsVal)) :
  intersect_all (s0 :: rest)
  = Some (List.filter (fun x => forallb (fun s => Set_has s x) rest) (Set_new s0)).
Proof.
  unfold intersect_all. simpl. apply intersect_fold_closed, Set_new_NoDup.
Qed.

Lemma intersect_all_exact_aux (s0 : list JsVal) (rest : list (list JsVal)) :
  exists r,
    intersect_all (s0 :: rest) = Some r
    /\ (forall x, x ∈ r <-> Forall (fun s => x ∈ s) (s0 :: rest)).
Proof.
  eexists. split; [apply intersect_all_closed|].
  intros x. rewrite List_filter_elem_of, Set_new_elem, Forall_cons.
  rewrite forallb_forall, Forall_forall.
  split; intros [H1 H2]; (split; [exact H1|]); intros s Hs.
  - apply Set_has_spec, H2. now apply list_elem_of_In.
  - apply Set_has_spec, H2. now apply list_elem_of_In.
Qed.

(** X7: the loop computes the intersection exactly: for candidate sets
    [s0], [rest], the result holds the identifiers that lie in every set,
    each once, in the order in which [s0] lists them. *)
Theorem intersect_all_exact (s0 : list JsVal) (rest : list (list JsVal)) :
  exists r,
    intersect_all (s0 :: rest) = Some r
    /\ (forall x, x ∈ r <-> Forall (fun s => x ∈ s) (s0 :: rest))
    /\ NoDup r
    /\ r `sublist_of` Set_new s0.
Proof.
  eexists. split; [apply intersect_all_closed|]. split; [|split].
  - intros x. rewrite List_filter_elem_of, Set_new_elem, Forall_cons.
    rewrite forallb_forall, Forall_forall.
    split; intros [H1 H2]; (split; [exact H1|]); intros s Hs.
    + apply Set_has_spec, H2. now apply list_elem_of_In.
    + apply Set_has_spec, H2. now apply list_elem_of_In.
  - apply List_filter_NoDup, Set_new_NoDup.
  - apply List_filter_sublist.
Qed.

(* ================================================================= *)
(** ** More on the result of a run *)

Lemma fetchedDetails_found api ings clean :
  fetchedDetails api ings = Some clean ->
  exists ids, lookupIds api ings = Some ids
              /\ clean = omap (found_record api) ids.
Proof.
  intros H. unfold fetchedDetails in H.
  destruct (lookupIds api ings) as [ids|] eqn:Hids; [|discriminate].
  exists ids. split; [reflexivity|].
  assert (Hok : forall i, In i ids -> lookup_response api i <> Rejected).
  { intros i Hi Hrej. simpl in H.
    rewrite Promise_all_Rejected in H; [discriminate|].
    apply in_map_iff. exists i. split; [|exact Hi].
    unfold lookup_record. now rewrite Hrej. }
  pose proof (fetchedDetails_tolerant api ings ids Hids Hok) as E.
  unfold fetchedDetails in E. rewrite Hids in E. congruence.
Qed.

Lemma lookupIds_nil api : lookupIds api [] = Some [].
Proof. reflexivity. Qed.

Lemma lookupIds_cons api ing0 rest ids :
  lookupIds api (ing0 :: rest) = Some ids ->
  exists s0 sets,
    candidateSet api ing0 = Some s0
    /\ candidateSets api rest = Some sets
    /\ ids = take 20 (List.filter (fun x => forallb (fun s => Set_has s x) sets)
                        (Set_new s0)).
Proof.
  unfold lookupIds, candidateSets.
  change (mapM (candidateSet api) (ing0 :: rest))
    with (y ← candidateSet api ing0; k ← mapM (candidateSet api) rest; mret (y :: k)).
  destruct (candidateSet api ing0) as [s0|]; [|discriminate]. simpl.
  destruct (mapM (candidateSet api) rest) as [sets|]; [|discriminate]. simpl.
  intros [= <-]. exists s0, sets. rewrite intersect_all_closed. auto.
Qed.

Lemma candidateSet_NoDup api ing s : candidateSet api ing = Some s -> NoDup s.
Proof.
  unfold candidateSet, mealSet.
  destruct (filter_response api ing) as [|d]; [discriminate|].
  destruct (mapM entry_id (default [] d)) as [l|]; [|discriminate].
  simpl. intros [= <-]. apply Set_new_NoDup.
Qed.

(** The identifiers of the records found, under a faithful service, are
    those asked for, in order. *)
Lemma found_ids_sublist api ids :
  lookup_faithful api ->
  map (fun m => get m "idMeal") (omap (found_record api) ids) `sublist_of` ids.
Proof.
  intros Hf. induction ids as [|i ids IH]; [constructor|].
  change (omap (found_record api) (i :: ids))
    with (match found_record api i with
          | Some y => y :: omap (found_record api) ids
          | None => omap (found_record api) ids
          end).
  destruct (found_record api i) as [m|] eqn:E.
  - unfold found_record in E.
    destruct (lookup_response api i) as [|d] eqn:E'; [discriminate|].
    simpl. rewrite (Hf i d m E' E). now apply sublist_skip.
  - now apply sublist_cons.
Qed.

(** X8: when the service answers lookups faithfully, the records of a
    result carry pairwise distinct identifiers, listed in the order of
    the first ingredient's candidates. *)
Theorem run_results_ordered
  (api : Upstream) (f : Filters) (ing0 : string) (rest : list string)
  (s0 : list JsVal) (s : Session) :
  lookup_faithful api ->
  candidateSet api ing0 = Some s0 ->
  let ids := map (fun m => get m "idMeal")
               (meals (final (run api f (ing0 :: rest)) s)) in
  NoDup ids /\ ids `sublist_of` s0.
Proof.
  intros Hf Hs0 ids.
  assert (Hsub : ids `sublist_of` s0).
  { subst ids. rewrite final_run_nonempty by discriminate. unfold run_result.
    destruct (fetchedDetails api (ing0 :: rest)) as [clean|] eqn:E; simpl;
      [|apply sublist_nil_l].
    apply fetchedDetails_found in E as (l & Hl & ->).
    apply lookupIds_cons in Hl as (s0' & sets & Hs0' & _ & ->).
    rewrite Hs0 in Hs0'. injection Hs0' as <-.
    etransitivity; [apply (fmap_sublist _), List_filter_sublist|].
    etransitivity; [now apply found_ids_sublist|].
    etransitivity; [apply sublist_take|].
    etransitivity; [apply List_filter_sublist|].
    rewrite Set_new_id; [reflexivity|]. exact (candidateSet_NoDup _ _ _ Hs0). }
  split; [|exact Hsub].
  exact (sublist_NoDup _ _ (candidateSet_NoDup _ _ _ Hs0) Hsub).
Qed.

(** X9: when every candidate set is defined and no identifier lies in all
    of them (disjoint sets, or an ingredient without any recipe), the run
    ends without error, with no record, and issues no lookup. *)
Theorem run_no_common_id
  (api : Upstream) (f : Filters) (ings : list string)
  (sets : list (list JsVal)) (s : Session) :
  ings <> [] ->
  candidateSets api ings = Some sets ->
  (forall x, ~ Forall (fun c => x ∈ c) sets) ->
  let s' := final (run api f ings) s in
  error s' = "" /\ meals s' = [] /\ selectedMeal s' = None
  /\ exists new, trace s' = (trace s ++ new)%list
                 /\ List.filter is_lookup new = [].
Proof.
  intros Hne Hsets Hnone s'. subst s'. rewrite (final_run_nonempty _ _ _ _ Hne).
  assert (Hids : lookupIds api ings = Some []).
  { destruct ings as [|ing0 rest]; [congruence|].
    destruct (lookupIds api (ing0 :: rest)) as [ids|] eqn:E.
    - f_equal. destruct ids as [|x ids]; [reflexivity|]. exfalso.
      unfold lookupIds in E. rewrite Hsets in E. simpl in E. injection E as E.
      apply (Hnone x). apply intersect_all_elem.
      assert (Hx : x ∈ take 20 (default [] (intersect_all sets)))
        by (rewrite E; now left).
      apply elem_of_take in Hx as (k & Hk & _).
      now apply list_elem_of_lookup_2 in Hk.
    - unfold lookupIds in E. rewrite Hsets in E. discriminate. }
  assert (Hfd : fetchedDetails api ings = Some [])
    by (unfold fetchedDetails; now rewrite Hids).
  unfold run_result, fetchTrace. rewrite Hfd, Hids.
  cbn [error meals selectedMeal trace]. repeat split.
  eexists. split; [reflexivity|].
  rewrite !List.filter_app, filter_is_lookup_filters. reflexivity.
Qed.

(** X10: what a run leaves does not depend on the session it starts
    from: recipes, selection and error are recomputed; the selection is
    the first recipe (none if there is none); and the error is either
    empty or the generic message, in which case there is no recipe. *)
Theorem run_overwrites
  (api : Upstream) (f : Filters) (ings : list string) (s1 s2 : Session) :
  let r1 := final (run api f ings) s1 in
  let r2 := final (run api f ings) s2 in
  meals r1 = meals r2 /\ error r1 = error r2
  /\ selectedMeal r1 = selectedMeal r2
  /\ selectedMeal r1 = head (meals r1)
  /\ (error r1 = "" \/ (error r1 = generic_error /\ meals r1 = [])).
Proof.
  intros r1 r2. subst r1 r2. destruct ings as [|ing0 rest].
  - unfold final. rewrite !run_empty. simpl. repeat split; auto.
  - rewrite !final_run_nonempty by discriminate. unfold run_result.
    destruct (fetchedDetails api (ing0 :: rest)); simpl; repeat split; auto.
Qed.

Lemma filter_is_fetch_fetchTrace api ings :
  List.filter is_fetch (fetchTrace api ings) = fetchTrace api ings.
Proof.
  apply forallb_filter_id, forallb_forall. intros e He.
  unfold fetchTrace in He. apply in_app_iff in He as [He|He];
    apply in_map_iff in He as (x & <- & _); reflexivity.
Qed.

(** X11: a run on a non-empty list sends one candidate request per
    ingredient, in order and whether or not some of them fail, then the
    lookups; these are all its requests, at most 20 more than there are
    ingredients. *)
Theorem run_requests
  (api : Upstream) (f : Filters) (ings : list string) (s : Session) :
  ings <> [] ->
  exists new,
    trace (final (run api f ings) s) = (trace s ++ new)%list
    /\ List.filter is_fetch new
       = (map (fun ing => Fetch (FilterByIngredient ing)) ings
          ++ map (fun id => Fetch (LookupById id))
               (default [] (lookupIds api ings)))%list
    /\ List.length (List.filter is_fetch new) <= List.length ings + 20.
Proof.
  intros Hne. rewrite (final_run_nonempty _ _ _ _ Hne).
  destruct (run_result_trace api f ings s) as (tail & -> & _ & Htail).
  eexists. split; [reflexivity|].
  assert (E : List.filter is_fetch
                ([SetError ""; SetMeals []; SetSelectedMeal None; SetLoading true]
                 ++ fetchTrace api ings ++ tail)%list = fetchTrace api ings).
  { rewrite !List.filter_app, Htail, filter_is_fetch_fetchTrace. simpl.
    apply app_nil_r. }
  rewrite E. split; [reflexivity|].
  unfold fetchTrace. rewrite length_app, !length_map.
  destruct (lookupIds api ings) as [ids|] eqn:Hids; simpl; [|lia].
  apply lookupIds_inv in Hids as [H _]. lia.
Qed.

(** X12: a [null] entry in the answer to a candidate request makes the
    run fail like a rejected request: generic error, no recipe, no
    lookup. *)
Theorem run_null_entry
  (api : Upstream) (f : Filters) (ings : list string) (ing : string)
  (entries : list (option JsObj)) (s : Session) :
  In ing ings ->
  filter_response api ing = Fulfilled (Some entries) ->
  In None entries ->
  let s' := final (run api f ings) s in
  error s' = generic_error /\ meals s' = [] /\ selectedMeal s' = None
  /\ exists new, trace s' = (trace s ++ new)%list
                 /\ List.filter is_lookup new = [].
Proof.
  intros Hing Hresp Hnull s'. subst s'.
  assert (Hne : ings <> []) by (destruct ings; [destruct Hing|discriminate]).
  rewrite (final_run_nonempty _ _ _ _ Hne).
  assert (Hids : lookupIds api ings = None).
  { unfold lookupIds, candidateSets.
    rewrite (mapM_None_2 (candidateSet api) ings); [reflexivity|].
    apply Exists_exists. exists ing. split; [now apply list_elem_of_In|].
    unfold candidateSet, mealSet. rewrite Hresp. simpl.
    rewrite (mapM_None_2 entry_id entries); [reflexivity|].
    apply Exists_exists. exists None. split; [now apply list_elem_of_In|reflexivity]. }
  assert (Hfd : fetchedDetails api ings = None)
    by (unfold fetchedDetails; now rewrite Hids).
  unfold run_result. rewrite Hfd. cbn [error meals selectedMeal trace].
  repeat split. eexists. split; [reflexivity|].
  rewrite !List.filter_app, (fetchTrace_no_ids _ _ Hids), filter_is_lookup_filters.
  reflexivity.
Qed.

(* ================================================================= *)
(** ** How the filters act *)

Lemma keepMeal_pass_all (meal : JsObj) : keepMeal pass_all meal = true.
Proof. apply keepMeal_no_filters; try reflexivity; simpl; lia. Qed.

Lemma filter_pass_all (l : list JsObj) : List.filter (keepMeal pass_all) l = l.
Proof.
  apply forallb_filter_id, forallb_forall. intros m _. apply keepMeal_pass_all.
Qed.

(** X13: filtering only removes: the result of a run under any filters
    is the result of the same run under no filter, filtered by those
    filters; the error is the same. *)
Theorem run_filters_only_remove
  (api : Upstream) (f : Filters) (ings : list string) (s : Session) :
  meals (final (run api f ings) s)
  = List.filter (keepMeal f) (meals (final (run api pass_all ings) s))
  /\ error (final (run api f ings) s) = error (final (run api pass_all ings) s)
  /\ meals (final (run api f ings) s)
     `sublist_of` meals (final (run api pass_all ings) s).
Proof.
  assert (E : meals (final (run api f ings) s)
              = List.filter (keepMeal f) (meals (final (run api pass_all ings) s))
              /\ error (final (run api f ings) s)
                 = error (final (run api pass_all ings) s)).
  { destruct ings as [|ing0 rest].
    - unfold final. rewrite !run_empty. simpl. auto.
    - rewrite !final_run_nonempty by discriminate. unfold run_result.
      destruct (fetchedDetails api (ing0 :: rest)) as [clean|]; simpl; [|auto].
      now rewrite filter_pass_all. }
  destruct E as [E1 E2]. split; [exact E1|]. split; [exact E2|].
  rewrite E1. apply List_filter_sublist.
Qed.

(** X14: raising the time limit never drops a record: a record kept
    under a limit is kept under any larger one, the other filters being
    the same. *)
Theorem keepMeal_cookTime_mono (f : Filters) (limit : Z) (meal : JsObj) :
  (cookTime f <= limit)%Z ->
  keepMeal f meal = true ->
  keepMeal (mkFilters (cuisines f) limit (mealTimes f) (diet f)) meal = true.
Proof.
  intros Hle. unfold keepMeal. cbv zeta. cbn [cuisines cookTime mealTimes diet].
  generalize (estimateCookTime (Some meal)). intros minutes.
  rewrite !andb_true_iff. intros [[[Hc Ht] Hd] Hm]. repeat split; auto.
  apply orb_true_iff in Ht. apply orb_true_iff.
  destruct Ht as [Ht|Ht]; [left|right]; apply Z.leb_le; apply Z.leb_le in Ht; lia.
Qed.

Lemma existsb_map {A B} (g : A -> B) (h : B -> bool) (l : list A) :
  existsb (fun c => h (g c)) l = existsb h (map g l).
Proof. induction l as [|x l IH]; simpl; [reflexivity|]. now rewrite IH. Qed.

(** X15: the cuisine filter looks at the matching values only, not at
    the labels: two selections with the same values keep the same
    records, so "North Indian" and "South Indian" filter alike. *)
Theorem keepMeal_cuisine_values (f : Filters) (cs : list Cuisine) (meal : JsObj) :
  map value cs = map value (cuisines f) ->
  keepMeal (mkFilters cs (cookTime f) (mealTimes f) (diet f)) meal
  = keepMeal f meal.
Proof.
  intros Hv. unfold keepMeal. cbv zeta. cbn [cuisines cookTime mealTimes diet].
  set (h := fun v => includes (toLowerCase (or_empty (get meal "strArea")))
                       (toLowerCase v)
                     || includes (lowerCategory meal) (toLowerCase v)).
  change (existsb _ cs) with (existsb (fun c => h (value c)) cs).
  change (existsb _ (cuisines f)) with (existsb (fun c => h (value c)) (cuisines f)).
  rewrite !(existsb_map value h), Hv.
  assert (Hl : List.length cs = List.length (cuisines f)).
  { apply (f_equal (@List.length _)) in Hv. now rewrite !length_map in Hv. }
  now rewrite Hl.
Qed.

(* ================================================================= *)
(** ** The chosen ingredients *)

Lemma removeIngredient_In (name x : string) (s : list string) :
  In x (removeIngredient name s) <-> In x s /\ x <> name.
Proof.
  unfold removeIngredient. rewrite filter_In, negb_true_iff, String.eqb_neq.
  reflexivity.
Qed.

Lemma removeIngredient_absent (name : string) (s : list string) :
  ~ In name s -> removeIngredient name s = s.
Proof.
  intros H. apply forallb_filter_id, forallb_forall. intros x Hx.
  apply negb_true_iff, String.eqb_neq. intros ->. contradiction.
Qed.

(** X16: [addIngredient] keeps the chosen list free of duplicates and of
    the empty name, only ever appends to it, leaves a non-empty name
    chosen, and is idempotent. *)
Theorem addIngredient_invariant (name : string) (st : SearchBox) :
  NoDup (selectedIngredients st) ->
  ~ In "" (selectedIngredients st) ->
  let st' := addIngredient name st in
  NoDup (selectedIngredients st')
  /\ ~ In "" (selectedIngredients st')
  /\ (name <> "" -> In name (selectedIngredients st'))
  /\ (exists tail, selectedIngredients st' = (selectedIngredients st ++ tail)%list)
  /\ addIngredient name st' = st'.
Proof.
  intros Hnd Hne st'. subst st'. unfold addIngredient.
  destruct (String.eqb_spec name "") as [->|Hname].
  { split; [exact Hnd|]. split; [exact Hne|]. split; [congruence|].
    split; [exists []; now rewrite app_nil_r|reflexivity]. }
  destruct (Array_includes (selectedIngredients st) name) eqn:E.
  { apply Array_includes_spec in E as E'.
    split; [exact Hnd|]. split; [exact Hne|]. split; [auto|].
    split; [exists []; now rewrite app_nil_r|].
    now rewrite E. }
  assert (Hin : ~ In name (selectedIngredients st)).
  { intros H. apply Array_includes_spec in H. congruence. }
  cbn [selectedIngredients]. repeat split.
  - apply NoDup_app. split; [exact Hnd|]. split; [|apply NoDup_singleton].
    intros x Hx Hx'. apply list_elem_of_singleton in Hx'. subst x.
    now apply list_elem_of_In in Hx.
  - intros H. apply in_app_iff in H as [H|[H|[]]]; auto.
  - intros _. apply in_app_iff. right. now left.
  - now exists [name].
  - assert (E' : Array_includes (selectedIngredients st ++ [name]) name = true).
    { apply Array_includes_spec, in_app_iff. right. now left. }
    now rewrite E'.
Qed.

(** X17: [removeIngredient] removes the name and nothing else, keeps the
    order and the absence of duplicates, and undoes the addition of a
    name that was not chosen. *)
Theorem removeIngredient_spec (name : string) (st : SearchBox) :
  let s := selectedIngredients st in
  ~ In name (removeIngredient name s)
  /\ (forall x, x <> name -> (In x (removeIngredient name s) <-> In x s))
  /\ removeIngredient name s `sublist_of` s
  /\ (NoDup s -> NoDup (removeIngredient name s))
  /\ (~ In name s ->
      removeIngredient name (selectedIngredients (addIngredient name st)) = s).
Proof.
  intros s. subst s. split; [|split; [|split; [|split]]].
  - rewrite removeIngredient_In. tauto.
  - intros x Hx. rewrite removeIngredient_In. tauto.
  - apply List_filter_sublist.
  - apply List_filter_NoDup.
  - intros Hin. unfold addIngredient.
    destruct (String.eqb name ""); [now apply removeIngredient_absent|].
    destruct (Array_includes (selectedIngredients st) name);
      [now apply removeIngredient_absent|].
    cbn [selectedIngredients]. unfold removeIngredient.
    rewrite List.filter_app. simpl. rewrite String.eqb_refl. simpl.
    rewrite app_nil_r. now apply removeIngredient_absent.
Qed.

(** X18: the Enter key adds the trimmed text of the box, and only when it
    is not blank; any other key, or a blank box, changes nothing.  If the
    chosen names were trimmed and not empty, they still are. *)
Theorem onKeyDown_spec (key : string) (st : SearchBox) :
  (key <> "Enter" -> onKeyDown key st = st)
  /\ (trim (query st) = "" -> onKeyDown key st = st)
  /\ (trim (query st) <> "" ->
      In (trim (query st)) (selectedIngredients (onKeyDown "Enter" st)))
  /\ (Forall (fun n => n <> "" /\ trim n = n) (selectedIngredients st) ->
      Forall (fun n => n <> "" /\ trim n = n)
        (selectedIngredients (onKeyDown key st))).
Proof.
  unfold onKeyDown. split; [|split; [|split]].
  - intros H. apply String.eqb_neq in H. now rewrite H.
  - intros H. rewrite H. simpl. now rewrite andb_false_r.
  - intros H. apply String.eqb_neq in H as H'. rewrite H'. simpl.
    unfold addIngredient. rewrite H'.
    destruct (Array_includes (selectedIngredients st) (trim (query st))) eqn:E.
    + now apply Array_includes_spec.
    + cbn [selectedIngredients]. apply in_app_iff. right. now left.
  - intros Hall.
    destruct (String.eqb key "Enter" && negb (String.eqb (trim (query st)) ""))
      eqn:E; [|exact Hall].
    apply andb_true_iff in E as [_ E]. apply negb_true_iff in E.
    unfold addIngredient. rewrite E.
    destruct (Array_includes (selectedIngredients st) (trim (query st)));
      [exact Hall|].
    cbn [selectedIngredients]. apply Forall_app. split; [exact Hall|].
    constructor; [|constructor]. apply String.eqb_neq in E.
    split; [exact E|apply trim_idem].
Qed.

(* ================================================================= *)
(** ** Filter buttons *)

Lemma isActive_spec {A} `{EqDecision A} (arr : list A) (m : A) :
  isActive arr m = true <-> In m arr.
Proof. unfold isActive. rewrite bool_decide_eq_true. apply list_elem_of_In. Qed.

Lemma toggleChoice_In {A} `{EqDecision A} (m x : A) (prev : list A) :
  In x (toggleChoice (isActive prev m) m prev)
  <-> (x = m /\ ~ In m prev) \/ (x <> m /\ In x prev).
Proof.
  unfold toggleChoice. destruct (isActive prev m) eqn:E.
  - apply isActive_spec in E. rewrite filter_In, negb_true_iff, bool_decide_eq_false.
    split; [intros [H1 H2]; now right|].
    intros [[_ H]|[H1 H2]]; [contradiction|auto].
  - assert (Hm : ~ In m prev) by (rewrite <- isActive_spec; congruence).
    rewrite in_app_iff. simpl. split.
    + intros [H|[<-|[]]]; [|now left]. right. split; [|exact H].
      intros ->. contradiction.
    + intros [[-> _]|[_ H]]; auto.
Qed.

(** X19: a click on a meal-time or diet button flips that choice and no
    other, keeps the list free of duplicates, and a second click restores
    the choices (the very list when the label was not chosen). *)
Theorem toggleChoice_spec {A} `{EqDecision A} (m : A) (prev : list A) :
  let next := toggleChoice (isActive prev m) m prev in
  (In m next <-> ~ In m prev)
  /\ (forall x, x <> m -> (In x next <-> In x prev))
  /\ (NoDup prev -> NoDup next)
  /\ (forall x, In x (toggleChoice (isActive next m) m next) <-> In x prev)
  /\ (~ In m prev -> toggleChoice (isActive next m) m next = prev).
Proof.
  intros next. subst next. split; [|split; [|split; [|split]]].
  - rewrite toggleChoice_In. tauto.
  - intros x Hx. rewrite toggleChoice_In. tauto.
  - intros Hnd. unfold toggleChoice. destruct (isActive prev m) eqn:E.
    + now apply List_filter_NoDup.
    + apply NoDup_app. split; [exact Hnd|]. split; [|apply NoDup_singleton].
      intros x Hx Hx'. apply list_elem_of_singleton in Hx'. subst x.
      apply list_elem_of_In, isActive_spec in Hx. congruence.
  - intros x. rewrite !toggleChoice_In.
    assert (Hd : In m prev \/ ~ In m prev).
    { destruct (isActive prev m) eqn:E; [left; now apply isActive_spec|].
      right. rewrite <- isActive_spec. congruence. }
    destruct (decide (x = m)) as [->|N]; tauto.
  - intros Hm.
    assert (E : isActive prev m = false).
    { destruct (isActive prev m) eqn:E; [|reflexivity].
      apply isActive_spec in E. contradiction. }
    assert (E' : isActive (prev ++ [m]) m = true).
    { apply isActive_spec, in_app_iff. right. now left. }
    unfold toggleChoice. rewrite E, E'. rewrite List.filter_app. simpl.
    rewrite bool_decide_eq_true_2 by reflexivity. simpl. rewrite app_nil_r.
    apply forallb_filter_id, forallb_forall. intros x Hx.
    apply negb_true_iff, bool_decide_eq_false. intros ->. contradiction.
Qed.

Lemma cuisineChecked_spec (cs : list Cuisine) (opt : Cuisine) :
  cuisineChecked cs opt = true <-> In (label opt) (map label cs).
Proof.
  unfold cuisineChecked. rewrite in_map_iff.
  destruct (List.find _ cs) as [c|] eqn:E.
  - apply find_some in E as [Hc E]. apply String.eqb_eq in E.
    split; [|reflexivity]. intros _. now exists c.
  - split; [discriminate|]. intros (c & Hl & Hc).
    pose proof (find_none _ _ E c Hc) as N. simpl in N.
    rewrite Hl, String.eqb_refl in N. discriminate.
Qed.

(** X20: ticking or unticking a cuisine box (the box reports the opposite
    of its drawn state) flips that option, leaves the other options as
    they were, and keeps the chosen labels distinct. *)
Theorem onCuisineChange_spec (opt other : Cuisine) (prev : list Cuisine) :
  let next := onCuisineChange (negb (cuisineChecked prev opt)) opt prev in
  cuisineChecked next opt = negb (cuisineChecked prev opt)
  /\ (label other <> label opt ->
      cuisineChecked next other = cuisineChecked prev other)
  /\ (NoDup (map label prev) -> NoDup (map label next)).
Proof.
  intros next. subst next.
  assert (Hin : forall o,
    In (label o) (map label (onCuisineChange (negb (cuisineChecked prev opt)) opt prev))
    <-> (label o = label opt /\ cuisineChecked prev opt = false)
        \/ (label o <> label opt /\ In (label o) (map label prev))).
  { intros o. unfold onCuisineChange.
    destruct (cuisineChecked prev opt) eqn:E; simpl.
    - rewrite !in_map_iff. split.
      + intros (c & Hl & Hc). apply filter_In in Hc as [Hc Hn].
        apply negb_true_iff, String.eqb_neq in Hn. right. split; [congruence|].
        now exists c.
      + intros [[_ H]|[Hn (c & Hl & Hc)]]; [discriminate|]. exists c.
        split; [exact Hl|]. apply filter_In. split; [exact Hc|].
        apply negb_true_iff, String.eqb_neq. congruence.
    - assert (Hno : ~ In (label opt) (map label prev)).
      { rewrite <- cuisineChecked_spec. congruence. }
      rewrite map_app, in_app_iff. simpl. split.
      + intros [H|[H|[]]]; [|left; auto]. right. split; [|exact H].
        intros Heq. rewrite Heq in H. contradiction.
      + intros [[-> _]|[_ H]]; auto. }
  split; [|split].
  - apply eq_true_iff_eq. rewrite cuisineChecked_spec, Hin, negb_true_iff.
    intuition congruence.
  - intros Hn. apply eq_true_iff_eq. rewrite !cuisineChecked_spec, Hin. tauto.
  - intros Hnd. unfold onCuisineChange.
    destruct (cuisineChecked prev opt) eqn:E; simpl.
    + eapply sublist_NoDup; [exact Hnd|]. apply (fmap_sublist _), List_filter_sublist.
    + rewrite map_app. apply NoDup_app. split; [exact Hnd|].
      split; [|apply NoDup_singleton].
      intros x Hx Hx'. apply list_elem_of_singleton in Hx'. subst x.
      apply list_elem_of_In, cuisineChecked_spec in Hx. congruence.
Qed.

(* ================================================================= *)
(** ** The star of a recipe card *)

Lemma isFavourite_spec (f : list Favourite) (meal : JsObj) :
  isFavourite f meal = true <-> exists x, In x f /\ idMeal x = get meal "idMeal".
Proof.
  unfold isFavourite. destruct (List.find (same_id meal) f) as [x|] eqn:E.
  - apply find_some in E as [Hx E]. apply same_id_spec in E.
    split; [|reflexivity]. intros _. eauto.
  - apply find_same_id_None in E. split; [discriminate|]. intros H. contradiction.
Qed.

Lemma toggleFavourite_ids (meal : JsObj) (f : list Favourite) (i : JsVal) :
  In i (map idMeal (toggleFavourite meal f))
  <-> (i = get meal "idMeal" /\ isFavourite f meal = false)
      \/ (i <> get meal "idMeal" /\ In i (map idMeal f)).
Proof.
  destruct (has_id_dec meal f) as [H|H].
  - assert (E : isFavourite f meal = true) by now apply isFavourite_spec.
    rewrite (toggleFavourite_present _ _ H), E, !in_map_iff. split.
    + intros (x & <- & Hx). apply filter_In in Hx as [Hx Hn].
      apply negb_true_iff in Hn. right. split; [|eauto].
      intros Heq. apply same_id_spec in Heq. congruence.
    + intros [[_ X]|[Hn (x & <- & Hx)]]; [discriminate|]. exists x.
      split; [reflexivity|]. apply filter_In. split; [exact Hx|].
      apply negb_true_iff, not_true_iff_false. now rewrite same_id_spec.
  - assert (E : isFavourite f meal = false).
    { apply not_true_iff_false. now rewrite isFavourite_spec. }
    rewrite (toggleFavourite_absent _ _ H), E, map_app, in_app_iff. simpl. split.
    + intros [Hi|[<-|[]]]; [|now left]. right. split; [|exact Hi].
      intros ->. apply H. apply in_map_iff in Hi as (x & Hx & Hin). eauto.
    + intros [[-> _]|[_ Hi]]; auto.
Qed.

(** X21: a click on the star flips it for that recipe and for no recipe
    with another identifier, and the favourites keep pairwise distinct
    identifiers. *)
Theorem toggleFavourite_star (meal other : JsObj) (f : list Favourite) :
  isFavourite (toggleFavourite meal f) meal = negb (isFavourite f meal)
  /\ (get other "idMeal" <> get meal "idMeal" ->
      isFavourite (toggleFavourite meal f) other = isFavourite f other)
  /\ (NoDup (map idMeal f) -> NoDup (map idMeal (toggleFavourite meal f))).
Proof.
  assert (Hfav : forall g m, isFavourite g m = true <-> In (get m "idMeal") (map idMeal g)).
  { intros g m. rewrite isFavourite_spec, in_map_iff. split.
    - intros (x & Hx & E). eauto.
    - intros (x & E & Hx). eauto. }
  split; [|split].
  - apply eq_true_iff_eq. rewrite Hfav, toggleFavourite_ids, negb_true_iff.
    intuition congruence.
  - intros Hn. apply eq_true_iff_eq. rewrite !Hfav, toggleFavourite_ids. tauto.
  - intros Hnd. destruct (has_id_dec meal f) as [H|H].
    + rewrite (toggleFavourite_present _ _ H).
      eapply sublist_NoDup; [exact Hnd|]. apply (fmap_sublist _), List_filter_sublist.
    + rewrite (toggleFavourite_absent _ _ H), map_app.
      apply NoDup_app. split; [exact Hnd|]. split; [|apply NoDup_singleton].
      intros x Hx Hx'. apply list_elem_of_singleton in Hx'. subst x. simpl in Hx.
      apply H. apply list_elem_of_In, in_map_iff in Hx as (y & E & Hy). eauto.
Qed.

(* ================================================================= *)
(** ** Suggestions and the chosen list *)

Lemma suggestions_In (q s : string) (cat sel : list string) :
  In s (suggestions q cat sel) ->
  q <> "" /\ In s cat /\ ~ In s sel /\ ci_substring q s.
Proof.
  unfold suggestions. destruct (String.eqb_spec q "") as [->|Hq]; [intros []|].
  intros H. apply list_elem_of_In, elem_of_take in H as (k & Hk & _).
  apply list_elem_of_lookup_2, list_elem_of_In, filter_In in Hk as [Hc Hp].
  apply andb_true_iff in Hp as [Hi Hn]. apply negb_true_iff in Hn.
  split; [exact Hq|]. split; [exact Hc|]. split.
  - rewrite <- Array_includes_spec. congruence.
  - now apply includes_lower_spec.
Qed.

Lemma ci_substring_empty (q : string) : ci_substring q "" -> q = "".
Proof.
  intros (pre & mid & post & E & H).
  destruct pre; [|discriminate]. destruct mid; [|discriminate].
  destruct q; [reflexivity|discriminate].
Qed.

(** X22: a suggestion is a catalogue name that is not empty and not yet
    chosen; choosing it keeps the chosen list free of duplicates, and it
    is then suggested for no query. *)
Theorem suggestions_add (q q' s : string) (cat : list string) (st : SearchBox) :
  In s (suggestions q cat (selectedIngredients st)) ->
  In s cat /\ s <> "" /\ ~ In s (selectedIngredients st)
  /\ In s (selectedIngredients (addIngredient s st))
  /\ ~ In s (suggestions q' cat (selectedIngredients (addIngredient s st)))
  /\ (NoDup (selectedIngredients st) ->
      NoDup (selectedIngredients (addIngredient s st))).
Proof.
  intros H. apply suggestions_In in H as (Hq & Hc & Hn & Hsub).
  assert (Hs : s <> "").
  { intros ->. apply Hq. now apply ci_substring_empty. }
  assert (Hadd : selectedIngredients (addIngredient s st)
                 = (selectedIngredients st ++ [s])%list).
  { unfold addIngredient. apply String.eqb_neq in Hs. rewrite Hs.
    destruct (Array_includes (selectedIngredients st) s) eqn:E; [|reflexivity].
    apply Array_includes_spec in E. contradiction. }
  split; [exact Hc|]. split; [exact Hs|]. split; [exact Hn|].
  rewrite Hadd. split; [apply in_app_iff; right; now left|]. split.
  - intros H. apply suggestions_In in H as (_ & _ & H & _).
    apply H, in_app_iff. right. now left.
  - intros Hnd. apply NoDup_app. split; [exact Hnd|].
    split; [|apply NoDup_singleton].
    intros x Hx Hx'. apply list_elem_of_singleton in Hx'. subst x.
    now apply list_elem_of_In in Hx.
Qed.

(* ================================================================= *)
(** ** The loaded catalogue *)

Lemma sort_insert_Permutation cmp x l : sort_insert cmp x l ≡ₚ x :: l.
Proof.
  induction l as [|y l IH]; simpl; [reflexivity|].
  destruct (cmp x y <=? 0)%Z; [reflexivity|].
  rewrite IH. apply Permutation_swap.
Qed.

Lemma Array_sort_Permutation cmp l : Array_sort cmp l ≡ₚ l.
Proof.
  induction l as [|x l IH]; simpl; [reflexivity|].
  now rewrite sort_insert_Permutation, IH.
Qed.

(** X23: whatever the comparator, the loaded catalogue holds exactly the
    non-empty names of the answer, each as often as it occurs there;
    entries that are [null], have no name or an empty one are dropped,
    and a rejected request or an answer without list gives the empty
    catalogue. *)
Theorem loadIngredients_content
  (cmp : string -> string -> Z) (d : Payload) :
  loadIngredients cmp (Fulfilled d)
  ≡ₚ omap (fun x => match get_opt x "strIngredient" with
                    | JStr n => if String.eqb n "" then None else Some n
                    | _ => None
                    end) (default [] d)
  /\ ~ In "" (loadIngredients cmp (Fulfilled d))
  /\ loadIngredients cmp Rejected = []
  /\ loadIngredients cmp (Fulfilled None) = [].
Proof.
  assert (E : map to_text (List.filter truthy
                (map (fun x => get_opt x "strIngredient") (default [] d)))
              = omap (fun x => match get_opt x "strIngredient" with
                               | JStr n => if String.eqb n "" then None else Some n
                               | _ => None
                               end) (default [] d)).
  { induction (default [] d) as [|x l IH]; [reflexivity|].
    change (omap ?g (x :: l))
      with (match g x with Some y => y :: omap g l | None => omap g l end).
    cbn [map List.filter].
    destruct (get_opt x "strIngredient") as [| |n]; simpl; try exact IH.
    destruct (String.eqb n ""); simpl; [exact IH|]. now rewrite IH. }
  assert (P : loadIngredients cmp (Fulfilled d)
              ≡ₚ omap (fun x => match get_opt x "strIngredient" with
                                | JStr n => if String.eqb n "" then None else Some n
                                | _ => None
                                end) (default [] d)).
  { unfold loadIngredients. cbv zeta. rewrite Array_sort_Permutation. now rewrite E. }
  split; [exact P|]. split; [|split; reflexivity].
  intros H. apply list_elem_of_In in H. rewrite P in H.
  apply list_elem_of_omap in H as (x & _ & Hx).
  destruct (get_opt x "strIngredient") as [| |n]; try discriminate.
  destruct (String.eqb_spec n ""); [discriminate|]. congruence.
Qed.

(* ================================================================= *)
(** ** The notices above the results *)

(** X24: after a run on a non-empty list the loading notice is off, and
    exactly one of three things is on screen: the error box, the
    "no results" notice, or at least one recipe card. *)
Theorem run_notices
  (api : Upstream) (f : Filters) (ings : list string) (s : Session) :
  ings <> [] ->
  let s' := final (run api f ings) s in
  showLoading s' = false
  /\ (showError s' = true /\ showNoResults s' ings = false /\ meals s' = []
      \/ showError s' = false /\ showNoResults s' ings = true /\ meals s' = []
      \/ showError s' = false /\ showNoResults s' ings = false /\ meals s' <> []).
Proof.
  intros Hne s'. subst s'. rewrite (final_run_nonempty _ _ _ _ Hne).
  unfold run_result, showLoading, showError, showNoResults.
  destruct ings as [|ing0 rest]; [congruence|].
  destruct (fetchedDetails api (ing0 :: rest)) as [clean|];
    cbn [loading error meals]; (split; [reflexivity|]).
  - destruct (List.filter (keepMeal f) clean) as [|m l].
    + right. left. repeat split.
    + right. right. repeat split. discriminate.
  - left. repeat split.
Qed.

(* ================================================================= *)
(** ** One ingredient; reordered ingredients *)

(** X25: with a single ingredient the identifiers looked up are the
    first 20 of its candidate set, in the order of the answer. *)
Theorem run_single_ingredient
  (api : Upstream) (f : Filters) (ing : string) (s0 : list JsVal) (s : Session) :
  candidateSet api ing = Some s0 ->
  lookupIds api [ing] = Some (take 20 s0)
  /\ exists new,
       trace (final (run api f [ing]) s) = (trace s ++ new)%list
       /\ List.filter is_fetch new
          = Fetch (FilterByIngredient ing)
            :: map (fun id => Fetch (LookupById id)) (take 20 s0).
Proof.
  intros Hs0.
  assert (Hids : lookupIds api [ing] = Some (take 20 s0)).
  { unfold lookupIds, candidateSets.
    change (mapM (candidateSet api) [ing])
      with (y ← candidateSet api ing; k ← Some []; mret (y :: k)).
    rewrite Hs0. cbn [mbind option_bind mret option_ret fmap option_fmap option_map].
    rewrite intersect_all_single. cbn [from_option]. unfold id.
    now rewrite (Set_new_id _ (candidateSet_NoDup _ _ _ Hs0)). }
  split; [exact Hids|].
  rewrite final_run_nonempty by discriminate.
  destruct (run_result_trace api f [ing] s) as (tail & -> & _ & Htail).
  eexists. split; [reflexivity|].
  rewrite !List.filter_app, Htail, filter_is_fetch_fetchTrace.
  unfold fetchTrace. rewrite Hids. simpl. now rewrite app_nil_r.
Qed.

(** X26: which identifiers are common does not depend on the order of
    the ingredients: reordering the candidate sets changes the order of
    the intersection at most, not its members. *)
Theorem intersect_all_reorder (sets sets' : list (list JsVal)) (x : JsVal) :
  sets ≡ₚ sets' ->
  x ∈ default [] (intersect_all sets) <-> x ∈ default [] (intersect_all sets').
Proof.
  intros Hp.
  assert (H : forall l, x ∈ default [] (intersect_all l)
                        <-> l <> [] /\ Forall (fun c => x ∈ c) l).
  { intros [|s0 rest].
    - simpl. rewrite elem_of_nil. split; [tauto|]. intros [N _]. congruence.
    - destruct (intersect_all_exact_aux s0 rest) as (r & -> & Hr).
      simpl. rewrite Hr. split; [|tauto]. intros F. split; [discriminate|exact F]. }
  rewrite !H. split; intros [N F]; split.
  - intros ->. apply Permutation_nil_r in Hp. congruence.
  - now rewrite <- Hp.
  - intros ->. symmetry in Hp. apply Permutation_nil_r in Hp. congruence.
  - now rewrite Hp.
Qed.

(* ================================================================= *)
(** ** The further properties on sample data *)

Lemma extractIngredients_slot_bounds_witness :
  extractIngredients (Some (<[slotKey "strIngredient" 21 := JStr "salt"]> paella))
  = extractIngredients (Some paella)
  /\ estimateCookTime (Some (<[slotKey "strIngredient" 21 := JStr "salt"]> paella))
     = estimateCookTime (Some paella).
Proof.
  assert (H : ~ (1 <= 21 <= 20)) by lia.
  exact (extractIngredients_slot_bounds paella 21 (JStr "salt") H).
Defined.

Lemma isVeg_keyword_witness :
  isVeg chicken_rice = false /\ dietLabelOk chicken_rice "Veg" = false.
Proof.
  assert (Hi : 1 <= 1 <= 20) by lia.
  assert (Hget : get chicken_rice (slotKey "strIngredient" 1)
                 = JStr " Chicken thighs ") by (vm_compute; reflexivity).
  assert (Hw : In "chicken" meat_words) by (simpl; auto).
  assert (Hsub : ci_substring "chicken" (trim " Chicken thighs ")).
  { exists "", "Chicken", " thighs". split; vm_compute; reflexivity. }
  exact (isVeg_keyword chicken_rice 1 " Chicken thighs " "chicken" Hi Hget Hw Hsub).
Defined.

Lemma isSea_category_witness :
  isSea paella = true /\ dietLabelOk paella "Sea-food" = true.
Proof.
  assert (Hc : get paella "strCategory" = JStr "Seafood")
    by (vm_compute; reflexivity).
  assert (Hsub : ci_substring "seafood" "Seafood").
  { exists "", "Seafood", "". split; vm_compute; reflexivity. }
  exact (proj1 (isSea_category paella "Seafood") Hc Hsub).
Defined.

Lemma run_results_ordered_witness :
  NoDup (map (fun m => get m "idMeal")
           (meals (final (run (sample_api None) no_filters ["chicken"; "garlic"])
                     fresh_session)))
  /\ map (fun m => get m "idMeal")
       (meals (final (run (sample_api None) no_filters ["chicken"; "garlic"])
                 fresh_session))
     `sublist_of` [JStr "52772"; JStr "52773"; JStr "52774"].
Proof.
  assert (Hs0 : candidateSet (sample_api None) "chicken"
                = Some [JStr "52772"; JStr "52773"; JStr "52774"])
    by (vm_compute; reflexivity).
  exact (run_results_ordered (sample_api None) no_filters "chicken" ["garlic"]
           _ fresh_session sample_api_faithful Hs0).
Defined.

Lemma run_no_common_id_witness :
  error (final (run split_api no_filters ["chicken"; "tofu"]) fresh_session) = ""
  /\ meals (final (run split_api no_filters ["chicken"; "tofu"]) fresh_session) = [].
Proof.
  assert (Hne : ["chicken"; "tofu"] <> []) by discriminate.
  assert (Hsets : candidateSets split_api ["chicken"; "tofu"]
                  = Some [[JStr "A"; JStr "B"]; [JStr "C"]])
    by (vm_compute; reflexivity).
  assert (Hnone : forall x,
            ~ Forall (fun c => x ∈ c) [[JStr "A"; JStr "B"]; [JStr "C"]]).
  { intros x H. apply Forall_cons in H as [H1 H2]. apply Forall_cons in H2 as [H2 _].
    apply list_elem_of_singleton in H2. subst x.
    apply elem_of_cons in H1 as [H1|H1]; [discriminate|].
    apply list_elem_of_singleton in H1. discriminate. }
  pose proof (run_no_common_id split_api no_filters ["chicken"; "tofu"] _
                fresh_session Hne Hsets Hnone) as W.
  exact (conj (proj1 W) (proj1 (proj2 W))).
Defined.

Lemma run_requests_witness :
  exists new,
    trace (final (run (sample_api None) no_filters ["chicken"; "saffron"])
             fresh_session) = (trace fresh_session ++ new)%list
    /\ List.filter is_fetch new
       = (map (fun ing => Fetch (FilterByIngredient ing)) ["chicken"; "saffron"]
          ++ map (fun id => Fetch (LookupById id))
               (default [] (lookupIds (sample_api None) ["chicken"; "saffron"])))%list
    /\ List.length (List.filter is_fetch new)
       <= List.length ["chicken"; "saffron"] + 20.
Proof.
  assert (Hne : ["chicken"; "saffron"] <> []) by discriminate.
  exact (run_requests (sample_api None) no_filters ["chicken"; "saffron"]
           fresh_session Hne).
Defined.

Lemma run_null_entry_witness :
  error (final (run null_entry_api no_filters ["chicken"]) fresh_session)
  = generic_error.
Proof.
  assert (Hing : In "chicken" ["chicken"]) by (simpl; auto).
  assert (Hresp : filter_response null_entry_api "chicken"
                  = Fulfilled (Some [summary "A"; None])) by reflexivity.
  assert (Hnull : In None [summary "A"; None]) by (simpl; auto).
  exact (proj1 (run_null_entry null_entry_api no_filters ["chicken"] "chicken"
                  _ fresh_session Hing Hresp Hnull)).
Defined.

Lemma keepMeal_cookTime_mono_witness :
  keepMeal (mkFilters [] 45 [] []) garlic_soup = true.
Proof.
  assert (Hle : (cookTime (mkFilters [] 20 [] []) <= 45)%Z) by (simpl; lia).
  assert (Hkeep : keepMeal (mkFilters [] 20 [] []) garlic_soup = true)
    by (vm_compute; reflexivity).
  exact (keepMeal_cookTime_mono (mkFilters [] 20 [] []) 45 garlic_soup Hle Hkeep).
Defined.

Lemma keepMeal_cuisine_values_witness :
  keepMeal (mkFilters [mkCuisine "South Indian" "Indian"] 45 [] []) teriyaki
  = keepMeal (mkFilters [mkCuisine "North Indian" "Indian"] 45 [] []) teriyaki.
Proof.
  exact (keepMeal_cuisine_values
           (mkFilters [mkCuisine "North Indian" "Indian"] 45 [] [])
           [mkCuisine "South Indian" "Indian"] teriyaki eq_refl).
Defined.

Lemma sample_box_distinct :
  NoDup (selectedIngredients sample_box) /\ ~ In "" (selectedIngredients sample_box).
Proof.
  split.
  - apply NoDup_singleton.
  - simpl. intros [H|[]]. discriminate.
Qed.

Lemma addIngredient_invariant_witness :
  NoDup (selectedIngredients (addIngredient "chicken" sample_box))
  /\ In "chicken" (selectedIngredients (addIngredient "chicken" sample_box)).
Proof.
  assert (Hname : "chicken" <> "") by discriminate.
  pose proof (addIngredient_invariant "chicken" sample_box
                (proj1 sample_box_distinct) (proj2 sample_box_distinct)) as W.
  exact (conj (proj1 W) (proj1 (proj2 (proj2 W)) Hname)).
Defined.

Lemma removeIngredient_spec_witness :
  NoDup (removeIngredient "chicken" (selectedIngredients sample_box))
  /\ removeIngredient "chicken"
       (selectedIngredients (addIngredient "chicken" sample_box))
     = selectedIngredients sample_box.
Proof.
  assert (Hin : ~ In "chicken" (selectedIngredients sample_box)).
  { simpl. intros [H|[]]. discriminate. }
  pose proof (removeIngredient_spec "chicken" sample_box) as W.
  exact (conj (proj1 (proj2 (proj2 (proj2 W))) (proj1 sample_box_distinct))
              (proj2 (proj2 (proj2 (proj2 W))) Hin)).
Defined.

Lemma onKeyDown_spec_witness :
  onKeyDown "a" sample_box = sample_box
  /\ In (trim (query sample_box)) (selectedIngredients (onKeyDown "Enter" sample_box))
  /\ Forall (fun n => n <> "" /\ trim n = n)
       (selectedIngredients (onKeyDown "Enter" sample_box)).
Proof.
  assert (Hkey : "a" <> "Enter") by discriminate.
  assert (Hq : trim (query sample_box) <> "") by (vm_compute; discriminate).
  assert (Hall : Forall (fun n => n <> "" /\ trim n = n)
                   (selectedIngredients sample_box)).
  { constructor; [|constructor]. split; [discriminate|vm_compute; reflexivity]. }
  split; [exact (proj1 (onKeyDown_spec "a" sample_box) Hkey)|].
  split; [exact (proj1 (proj2 (proj2 (onKeyDown_spec "Enter" sample_box))) Hq)|].
  exact (proj2 (proj2 (proj2 (onKeyDown_spec "Enter" sample_box))) Hall).
Defined.

Lemma toggleChoice_spec_witness :
  NoDup (toggleChoice (isActive [Lunch] Dinner) Dinner [Lunch])
  /\ toggleChoice
       (isActive (toggleChoice (isActive [Lunch] Dinner) Dinner [Lunch]) Dinner)
       Dinner (toggleChoice (isActive [Lunch] Dinner) Dinner [Lunch])
     = [Lunch].
Proof.
  assert (Hnd : NoDup [Lunch]) by apply NoDup_singleton.
  assert (Hin : ~ In Dinner [Lunch]) by (simpl; intros [H|[]]; discriminate).
  pose proof (toggleChoice_spec Dinner [Lunch]) as W.
  exact (conj (proj1 (proj2 (proj2 W)) Hnd) (proj2 (proj2 (proj2 (proj2 W))) Hin)).
Defined.

Lemma onCuisineChange_spec_witness :
  cuisineChecked
    (onCuisineChange (negb (cuisineChecked [] (mkCuisine "Chinese" "Chinese")))
       (mkCuisine "Chinese" "Chinese") [])
    (mkCuisine "Russians" "Russian")
  = cuisineChecked [] (mkCuisine "Russians" "Russian")
  /\ NoDup (map label
              (onCuisineChange
                 (negb (cuisineChecked [] (mkCuisine "Chinese" "Chinese")))
                 (mkCuisine "Chinese" "Chinese") [])).
Proof.
  assert (Hl : label (mkCuisine "Russians" "Russian")
               <> label (mkCuisine "Chinese" "Chinese")) by discriminate.
  assert (Hnd : NoDup (map label (@nil Cuisine))) by constructor.
  pose proof (onCuisineChange_spec (mkCuisine "Chinese" "Chinese")
                (mkCuisine "Russians" "Russian") []) as W.
  exact (conj (proj1 (proj2 W) Hl) (proj2 (proj2 W) Hnd)).
Defined.

Lemma toggleFavourite_star_witness :
  isFavourite (toggleFavourite teriyaki [favouriteOf garlic_soup]) garlic_soup
  = isFavourite [favouriteOf garlic_soup] garlic_soup
  /\ NoDup (map idMeal (toggleFavourite teriyaki [favouriteOf garlic_soup])).
Proof.
  assert (Hn : get garlic_soup "idMeal" <> get teriyaki "idMeal")
    by (vm_compute; discriminate).
  assert (Hnd : NoDup (map idMeal [favouriteOf garlic_soup]))
    by apply NoDup_singleton.
  pose proof (toggleFavourite_star teriyaki garlic_soup [favouriteOf garlic_soup])
    as W.
  exact (conj (proj1 (proj2 W) Hn) (proj2 (proj2 W) Hnd)).
Defined.

Lemma suggestions_add_witness :
  ~ In "Chicken"
      (suggestions "c" ["Chicken"; "Spinach"]
         (selectedIngredients (addIngredient "Chicken" sample_box))).
Proof.
  assert (H : In "Chicken"
                (suggestions "ch" ["Chicken"; "Spinach"]
                   (selectedIngredients sample_box)))
    by (vm_compute; auto).
  exact (proj1 (proj2 (proj2 (proj2 (proj2
           (suggestions_add "ch" "c" "Chicken" ["Chicken"; "Spinach"]
              sample_box H)))))).
Defined.

Lemma run_notices_witness :
  showLoading (final (run split_api no_filters ["chicken"; "tofu"]) fresh_session)
  = false.
Proof.
  assert (Hne : ["chicken"; "tofu"] <> []) by discriminate.
  exact (proj1 (run_notices split_api no_filters ["chicken"; "tofu"]
                  fresh_session Hne)).
Defined.

Lemma run_single_ingredient_witness :
  lookupIds (sample_api None) ["chicken"]
  = Some (take 20 [JStr "52772"; JStr "52773"; JStr "52774"]).
Proof.
  assert (Hs0 : candidateSet (sample_api None) "chicken"
                = Some [JStr "52772"; JStr "52773"; JStr "52774"])
    by (vm_compute; reflexivity).
  exact (proj1 (run_single_ingredient (sample_api None) no_filters "chicken" _
                  fresh_session Hs0)).
Defined.

Lemma intersect_all_reorder_witness :
  JStr "B" ∈ default [] (intersect_all [[JStr "A"; JStr "B"]; [JStr "B"]])
  <-> JStr "B" ∈ default [] (intersect_all [[JStr "B"]; [JStr "A"; JStr "B"]]).
Proof.
  assert (Hp : [[JStr "A"; JStr "B"]; [JStr "B"]]
               ≡ₚ [[JStr "B"]; [JStr "A"; JStr "B"]]) by apply Permutation_swap.
  exact (intersect_all_reorder _ _ (JStr "B") Hp).
Defined.
